(** * RandomAffine: a shallow embedding of
    [torchio/transforms/augmentation/spatial/random_affine.py]

    Intensities and sampled parameters are rationals ([Q]): the rounding of
    the floating-point types is abstracted away, the structure of every
    computation (which values are gathered, in which order, what is divided
    by what) is kept.  Points of physical space are triples of reals, since
    the rotation needs sines and cosines.  Python exceptions are the [Err]
    results of [Result]. *)

From Stdlib Require Import List String Bool Arith Lia ZArith QArith Qreduction Qminmax.
From Stdlib Require Import Reals Lra Qreals.
From Stdlib Require Lqa.
Import ListNotations.

(** ** Exceptions *)

Inductive Exception : Type :=
| ValueError (message : string)
| IndexError
| AssertionError
| TypeError
| RuntimeError (message : string).

Inductive Result (A : Type) : Type :=
| Ok (value : A)
| Err (e : Exception).

Arguments Ok {A} value.
Arguments Err {A} e.

Definition rbind {A B : Type} (r : Result A) (k : A -> Result B) : Result B :=
  match r with
  | Ok a => k a
  | Err e => Err e
  end.

Declare Scope result_scope.
Delimit Scope result_scope with result.
Notation "x <- r ;; k" := (rbind r (fun x => k))
  (at level 61, r at next level, right associativity) : result_scope.

Fixpoint mapM {A B : Type} (f : A -> Result B) (l : list A) : Result (list B) :=
  match l with
  | [] => Ok []
  | x :: xs =>
      (y <- f x ;; ys <- mapM f xs ;; Ok (y :: ys))%result
  end.

(** ** NumPy arrays of rank 3 and the border statistics *)

Module Numpy.

(** [array[i][j][k]]: the outermost list is the first axis. *)
Definition Array2 : Type := list (list Q).
Definition Array3 : Type := list Array2.

(** [a[0]] and [a[-1]] raise [IndexError] on an axis of length 0. *)
Definition first {A : Type} (l : list A) : Result A :=
  match l with
  | [] => Err IndexError
  | x :: _ => Ok x
  end.

Fixpoint last_item {A : Type} (l : list A) : Result A :=
  match l with
  | [] => Err IndexError
  | [x] => Ok x
  | _ :: xs => last_item xs
  end.

(** [border.flatten()] of a 2D slab. *)
Definition flatten (slab : Array2) : list Q := List.concat slab.

(** [np.hstack] of 1D arrays. *)
Definition hstack (parts : list (list Q)) : list Q := List.concat parts.

Definition sum (values : list Q) : Q := fold_left Qplus values 0.

(** [values.mean()]: the arithmetic mean, the sum divided by the number of
    values, kept in lowest terms so that equal means are equal terms.  The
    rounding of the floating-point accumulation is not part of this model:
    the value is the exact mean, from which the mean NumPy computes can differ
    in the last place. *)
Definition mean (values : list Q) : Q :=
  Qred (sum values / inject_Z (Z.of_nat (List.length values))).

(** [borders < threshold] as a mask. *)
Definition lt (threshold v : Q) : bool :=
  match Qcompare v threshold with
  | Lt => true
  | _ => false
  end.

(** [values.any()]: some element is nonzero. *)
Definition any (values : list Q) : bool :=
  existsb (fun v => negb (Qeq_bool v 0)) values.

(** The shape of a 2D array. *)
Definition shape2 (slab : Array2) : nat * nat :=
  (List.length slab, List.length (hd [] slab)).

Definition shape2_eqb (a b : nat * nat) : bool :=
  Nat.eqb (fst a) (fst b) && Nat.eqb (snd a) (snd b).

(** [np.array(slabs)] of a tuple of 2D arrays: a [ValueError] unless all of
    them have the shape of the first. *)
Definition np_array (slabs : list Array2) : Result (list Array2) :=
  if forallb (fun b => shape2_eqb (shape2 (hd [] slabs)) (shape2 b)) slabs
  then Ok slabs
  else Err (ValueError "the requested array has an inhomogeneous shape").

End Numpy.

(** [sitk.OtsuThresholdImageFilter] run on the border values laid out as a
    [1 x 1 x n] image, followed by [GetThreshold()].  The filter belongs to
    SimpleITK; nothing is assumed about the threshold it returns. *)
Class OtsuFilter : Type := { OtsuThreshold : list Q -> Q }.

Section BorderStatistics.

Import Numpy.
Local Open Scope result_scope.

Context {otsu : OtsuFilter}.

(** The eight slices of the tuple at lines 188-195, in the order written. *)
Definition border_slices (array : Array3) : Result (list Array2) :=
  b0 <- first array ;;
  b1 <- last_item array ;;
  b2 <- first array ;;
  b3 <- last_item array ;;
  b4 <- mapM first array ;;
  b5 <- mapM last_item array ;;
  b6 <- mapM (mapM first) array ;;
  b7 <- mapM (mapM last_item) array ;;
  Ok [b0; b1; b2; b3; b4; b5; b6; b7].

(** Lines 187-196: [np.array] of the tuple of slices, which raises unless
    the eight slices have one shape; iterated over at line 197, it gives
    them back one by one. *)
Definition border_slabs (array : Array3) : Result (list Array2) :=
  slices <- border_slices array ;;
  np_array slices.

(** [np.hstack([border.flatten() for border in borders])] *)
Definition border_values (array : Array3) : Result (list Q) :=
  slabs <- border_slabs array ;;
  Ok (hstack (map flatten slabs)).

(** [get_borders_mean(image, filter_otsu)], on the array view of the
    image. *)
Definition get_borders_mean (array : Array3) (filter_otsu : bool) : Result Q :=
  borders <- border_values array ;;
  if negb filter_otsu then Ok (mean borders)
  else
    let threshold := OtsuThreshold borders in
    let values := filter (lt threshold) borders in
    if any values then Ok (mean values) else Ok (mean borders).

End BorderStatistics.

(** The border set as the specification words it: six face slabs, the slices
    at index 0 and at index size-1 along each of the three axes, each face
    once. *)
Definition spec_six_face_values (array : Numpy.Array3) : Result (list Q) :=
  (f0 <- Numpy.first array ;;
   f1 <- Numpy.last_item array ;;
   f2 <- mapM Numpy.first array ;;
   f3 <- mapM Numpy.last_item array ;;
   f4 <- mapM (mapM Numpy.first) array ;;
   f5 <- mapM (mapM Numpy.last_item) array ;;
   Ok (Numpy.hstack (map Numpy.flatten [f0; f1; f2; f3; f4; f5])))%result.

Definition spec_six_face_mean (array : Numpy.Array3) : Result Q :=
  (values <- spec_six_face_values array ;; Ok (Numpy.mean values))%result.

(** ** Geometry: the SimpleITK transforms the file builds *)

Module Sitk.

Local Open Scope R_scope.

Definition Point : Type := (R * R * R)%type.
Definition Matrix : Type := (Point * Point * Point)%type.

Definition origin : Point := (0, 0, 0).

Definition mat_vec (m : Matrix) (p : Point) : Point :=
  let '(r0, r1, r2) := m in
  let dot (r : Point) :=
    let '(a, b, c) := r in
    let '(x, y, z) := p in a * x + b * y + c * z in
  (dot r0, dot r1, dot r2).

Definition col (m : Matrix) (j : nat) : Point :=
  let '(r0, r1, r2) := m in
  let pick (r : Point) :=
    let '(a, b, c) := r in
    match j with O => a | S O => b | _ => c end in
  (pick r0, pick r1, pick r2).

Definition mat_mul (m n : Matrix) : Matrix :=
  let '(r0, r1, r2) := m in
  let row (r : Point) :=
    let '(a, b, c) := r in
    let entry (j : nat) :=
      let '(x, y, z) := col n j in a * x + b * y + c * z in
    (entry 0%nat, entry 1%nat, entry 2%nat) in
  (row r0, row r1, row r2).

(** [sitk.ScaleTransform(3)]: scale [(1, 1, 1)] about the center
    [(0, 0, 0)] until the setters are called. *)
Record ScaleTransform : Type := {
  Scale : Q * Q * Q;
  ScaleCenter : Point
}.

Definition new_ScaleTransform : ScaleTransform :=
  {| Scale := (1, 1, 1)%Q; ScaleCenter := origin |}.

Definition SetScale (s : Q * Q * Q) (t : ScaleTransform) : ScaleTransform :=
  {| Scale := s; ScaleCenter := ScaleCenter t |}.

(** [sitk.Euler3DTransform()]: zero angles, center and translation, and the
    Z-X-Y order of ITK ([ComputeZYX] off) until the setters are called. *)
Record Euler3DTransform : Type := {
  AngleX : R;
  AngleY : R;
  AngleZ : R;
  Center : Point;
  Translation : Point;
  ComputeZYX : bool
}.

Definition new_Euler3DTransform : Euler3DTransform :=
  {| AngleX := 0; AngleY := 0; AngleZ := 0;
     Center := origin; Translation := origin; ComputeZYX := false |}.

Definition SetRotation (ax ay az : R) (t : Euler3DTransform) : Euler3DTransform :=
  {| AngleX := ax; AngleY := ay; AngleZ := az;
     Center := Center t; Translation := Translation t;
     ComputeZYX := ComputeZYX t |}.

Definition RotationX (a : R) : Matrix :=
  ((1, 0, 0), (0, cos a, - sin a), (0, sin a, cos a)).
Definition RotationY (a : R) : Matrix :=
  ((cos a, 0, sin a), (0, 1, 0), (- sin a, 0, cos a)).
Definition RotationZ (a : R) : Matrix :=
  ((cos a, - sin a, 0), (sin a, cos a, 0), (0, 0, 1)).

Definition GetMatrix (t : Euler3DTransform) : Matrix :=
  if ComputeZYX t
  then mat_mul (mat_mul (RotationZ (AngleZ t)) (RotationY (AngleY t)))
               (RotationX (AngleX t))
  else mat_mul (mat_mul (RotationZ (AngleZ t)) (RotationX (AngleX t)))
               (RotationY (AngleY t)).

Definition padd (p q : Point) : Point :=
  let '(a, b, c) := p in let '(x, y, z) := q in (a + x, b + y, c + z).
Definition psub (p q : Point) : Point :=
  let '(a, b, c) := p in let '(x, y, z) := q in (a - x, b - y, c - z).

Inductive Transform : Type :=
| TScale (t : ScaleTransform)
| TEuler3D (t : Euler3DTransform).

(** A scale maps [p] to [(p - c) * s + c]; a rigid transform maps [p] to
    [M (p - c) + c + translation]. *)
Definition TransformPoint1 (t : Transform) (p : Point) : Point :=
  match t with
  | TScale s =>
      let '(s0, s1, s2) := Scale s in
      let '(x, y, z) := psub p (ScaleCenter s) in
      padd (x * Q2R s0, y * Q2R s1, z * Q2R s2) (ScaleCenter s)
  | TEuler3D e =>
      padd (padd (mat_vec (GetMatrix e) (psub p (Center e))) (Center e))
           (Translation e)
  end.

(** [sitk.Transform(3, sitk.sitkComposite)]: the queue of the transforms
    added so far, oldest first. *)
Definition CompositeTransform : Type := list Transform.

Definition new_Composite : CompositeTransform := [].

Definition AddTransform (t : Transform) (c : CompositeTransform) : CompositeTransform :=
  c ++ [t].

(** A composite applies its queue from the back: the transform added last
    acts on the point first. *)
Definition TransformPoint (c : CompositeTransform) (p : Point) : Point :=
  fold_right TransformPoint1 p c.

(** Pixel component types of an image. *)
Inductive PixelID : Type :=
| sitkUInt8 | sitkInt16 | sitkInt32 | sitkInt64 | sitkFloat32 | sitkFloat64.

(** An image: its pixel type, its pixels as [GetArrayViewFromImage] shows
    them (indexed [z][y][x]), and the grid (origin, spacing, direction). *)
Record Image : Type := {
  PixelType : PixelID;
  ArrayView : Numpy.Array3;
  Origin : Q * Q * Q;
  Spacing : Q * Q * Q;
  Direction : list Q
}.

End Sitk.

(** ** Tensors and the random source of torch *)

Module Torch.

Inductive DType : Type :=
| uint8 | int16 | int32 | int64 | float32 | float64.

(** A tensor of rank 4, [tensor[c][i][j][k]], with its element type.  The
    rank is fixed by the type, so [assert tensor.ndim == 4] cannot fail. *)
Record Tensor : Type := {
  dtype : DType;
  channels : list Numpy.Array3
}.

Definition shape3 (a : Numpy.Array3) : list nat :=
  [List.length a; List.length (hd [] a); List.length (hd [] (hd [] a))].

Definition shape (t : Tensor) : list nat :=
  List.length (channels t) :: shape3 (hd [] (channels t)).

Definition values (t : Tensor) : list Q :=
  List.concat (List.concat (List.concat (channels t))).

(** [tensor.min().item()]; torch refuses a tensor without elements. *)
Definition min (t : Tensor) : Result Q :=
  match values t with
  | [] => Err (RuntimeError "min(): tensor has no elements")
  | v :: vs => Ok (fold_left Qmin vs v)
  end.

(** The interface of the library this model leaves open: the generator
    behind [uniform_] with its next draw from [[0, 1)], and the conversion
    of a value to an element type that an in-place assignment performs. *)
Class Runtime : Type := {
  Generator : Type;
  random_unit : Generator -> Q * Generator;
  cast : DType -> Q -> Q
}.

Section Random.
Context {rt : Runtime}.

Fixpoint draws (n : nat) (g : Generator) : list Q * Generator :=
  match n with
  | O => ([], g)
  | S n' =>
      let (u, g1) := random_unit g in
      let (us, g2) := draws n' g1 in
      (u :: us, g2)
  end.

(** [torch.FloatTensor(n).uniform_(low, high)]: refused when
    [low > high], otherwise [n] draws [u * (high - low) + low].  The rounding
    of the bounds and of the result to single precision is not part of this
    model: the draws are the exact values. *)
Definition uniform_ (n : nat) (low high : Q) (g : Generator)
  : Result (list Q) * Generator :=
  if Qle_bool low high then
    let (us, g') := draws n g in
    (Ok (map (fun u => u * (high - low) + low)%Q us), g')
  else
    (Err (RuntimeError "uniform_ expects to return a [from, to) range"), g).

(** [t.fill_(v)] *)
Definition fill_ (v : Q) (t : list Q) : list Q := map (fun _ => v) t.

(** [tensor[0] = torch.from_numpy(array)]: the tensor keeps its element
    type, the values written are converted to it. *)
Definition assign_first (t : Tensor) (array : Numpy.Array3) : Tensor :=
  {| dtype := dtype t;
     channels :=
       map (map (map (cast (dtype t)))) array :: tl (channels t) |}.
End Random.

End Torch.

(** [np_array.transpose()] reverses the axes. *)
Fixpoint cons_column {A : Type} (row : list A) (cols : list (list A))
  : list (list A) :=
  match row, cols with
  | [], _ => []
  | x :: row', [] => [x] :: cons_column row' []
  | x :: row', c :: cols' => (x :: c) :: cons_column row' cols'
  end.

Fixpoint transpose2 {A : Type} (rows : list (list A)) : list (list A) :=
  match rows with
  | [] => []
  | r :: rs => cons_column r (transpose2 rs)
  end.

Definition transpose (a : Numpy.Array3) : Numpy.Array3 :=
  map transpose2 (transpose2 (map transpose2 a)).

(** ** The names the file imports from the rest of torchio *)

Inductive Interpolation : Type := NEAREST | LINEAR | BSPLINE.

(** The value under the key [TYPE] of an image record. *)
Inductive ImageType : Type := INTENSITY | LABEL.

Definition ImageType_eqb (a b : ImageType) : bool :=
  match a, b with
  | INTENSITY, INTENSITY | LABEL, LABEL => true
  | _, _ => false
  end.

Definition Affine : Type := list (list Q).

(** An image record of a subject: the entries under [DATA], [AFFINE] and
    [TYPE]. *)
Record ImageDict : Type := {
  DATA : Torch.Tensor;
  AFFINE : Affine;
  TYPE : ImageType
}.

(** What a subject maps a name to: an image record, a list of floats (the
    recorded parameters), or other metadata. *)
Inductive Entry : Type :=
| EImage (image : ImageDict)
| EFloats (values : list Q)
| EText (text : string).

(** A subject is a Python [dict]: names are unique and keep the order in
    which they were first set. *)
Definition Subject : Type := list (string * Entry).

Fixpoint dict_set (key : string) (e : Entry) (d : Subject) : Subject :=
  match d with
  | [] => [(key, e)]
  | (k, old) :: rest =>
      if String.eqb k key then (k, e) :: rest
      else (k, old) :: dict_set key e rest
  end.

(** Modelled from the spec: [is_image_dict], imported from [torchio.utils]
    and defined outside this file.  A subject maps a name to an image record
    or to non-image metadata, which is ignored. *)
Definition is_image_dict (e : Entry) : bool :=
  match e with
  | EImage _ => true
  | _ => false
  end.

Definition image_shapes (sample : Subject) : list (list nat) :=
  flat_map (fun kv => match snd kv with
                      | EImage img => [Torch.shape (DATA img)]
                      | _ => []
                      end) sample.

(** Modelled from the spec: [Subject.check_consistent_shape], a method of
    the subject defined outside this file.  All volumes of the subject must
    share one shape; a mismatch is a fatal precondition failure. *)
Definition check_consistent_shape (sample : Subject) : Result unit :=
  match image_shapes sample with
  | [] => Ok tt
  | s :: others =>
      if forallb (fun s' => if list_eq_dec Nat.eq_dec s s' then true else false)
                 others
      then Ok tt
      else Err (ValueError "Images in sample have inconsistent shapes")
  end.

(** The argument [degrees]: one number or a pair. *)
Inductive RangeArg : Type :=
| Single (d : Q)
| Pair (low high : Q).

(** Modelled from the spec: [parse_degrees], inherited from the base class
    and defined outside this file.  A single bound [d] stands for [[-d, d]];
    a range with [low > high] is rejected. *)
Definition parse_degrees (degrees : RangeArg) : Result (Q * Q) :=
  let '(low, high) := match degrees with
                      | Single d => ((- d)%Q, d)
                      | Pair a b => (a, b)
                      end in
  if Qle_bool low high then Ok (low, high)
  else Err (ValueError "invalid range for degrees").

(** Modelled from the spec: [parse_interpolation], inherited from the base
    class and defined outside this file.  The argument is a member of the
    enumeration and is kept. *)
Definition parse_interpolation (i : Interpolation) : Result Interpolation := Ok i.

(** What the rest of torchio and SimpleITK provide to [apply_affine_transform]
    and this model leaves open: the conversion of an array with its affine
    map to an image, the interpolator constants, and the pixels the resampling
    filter computes. *)
Class Resampling : Type := {
  nib_to_sitk : Torch.DType -> Numpy.Array3 -> Affine -> Sitk.Image;
  Interpolator : Type;
  get_sitk_interpolator : Interpolation -> Interpolator;
  resampled_pixels :
    Interpolator -> Sitk.Image -> Q -> Sitk.CompositeTransform -> Sitk.Image ->
    Numpy.Array3
}.

(** [sitk.ResampleImageFilter] once configured: [Execute(floating)] returns
    an image on the grid of the reference, of the output pixel type. *)
Record ResampleImageFilter {rs : Resampling} : Type := {
  FilterInterpolator : Interpolator;
  ReferenceImage : Sitk.Image;
  DefaultPixelValue : Q;
  OutputPixelType : Sitk.PixelID;
  FilterTransform : Sitk.CompositeTransform
}.

Definition Execute {rs : Resampling} (f : ResampleImageFilter)
  (floating : Sitk.Image) : Sitk.Image :=
  {| Sitk.PixelType := OutputPixelType f;
     Sitk.ArrayView :=
       resampled_pixels (FilterInterpolator f) (ReferenceImage f)
         (DefaultPixelValue f) (FilterTransform f) floating;
     Sitk.Origin := Sitk.Origin (ReferenceImage f);
     Sitk.Spacing := Sitk.Spacing (ReferenceImage f);
     Sitk.Direction := Sitk.Direction (ReferenceImage f) |}.

(** ** RandomAffine *)

(** The argument [default_pad_value]: a string or a number. *)
Inductive PadValue : Type :=
| PadText (text : string)
| PadNumber (value : Q).

(** The attributes of a [RandomAffine] object; [p] and [seed] are those the
    constructor of the base class receives. *)
Record RandomAffine : Type := {
  p : Q;
  seed : option Z;
  scales : Q * Q;
  degrees : Q * Q;
  isotropic : bool;
  default_pad_value : PadValue;
  interpolation : Interpolation
}.

Section Transform.

Local Open Scope result_scope.
Local Open Scope string_scope.

Definition parse_default_value (value : PadValue) : Result PadValue :=
  match value with
  | PadNumber _ => Ok value
  | PadText t =>
      if existsb (String.eqb t) ["minimum"; "otsu"; "mean"] then Ok value
      else Err (ValueError
        "Value for default_pad_value must be 'minimum', 'otsu', 'mean' or a number")
  end.

(** [RandomAffine.__init__]; the constructor of the base class keeps [p] and
    [seed]. *)
Definition __init__ (scales : Q * Q) (degrees : RangeArg) (isotropic : bool)
  (default_pad_value : PadValue) (image_interpolation : Interpolation)
  (p : Q) (seed : option Z) : Result RandomAffine :=
  parsed_degrees <- parse_degrees degrees ;;
  parsed_pad <- parse_default_value default_pad_value ;;
  parsed_interpolation <- parse_interpolation image_interpolation ;;
  Ok {| p := p; seed := seed; scales := scales; degrees := parsed_degrees;
        isotropic := isotropic; default_pad_value := parsed_pad;
        interpolation := parsed_interpolation |}.

Context {rt : Torch.Runtime} {rs : Resampling} {otsu : OtsuFilter}.

Definition get_params (scales degrees : Q * Q) (isotropic : bool)
  (g : Torch.Generator) : Result (list Q * list Q) * Torch.Generator :=
  match Torch.uniform_ 3 (fst scales) (snd scales) g with
  | (Err e, g1) => (Err e, g1)
  | (Ok drawn, g1) =>
      let scaling_params :=
        if isotropic then Torch.fill_ (hd 0%Q drawn) drawn else drawn in
      match Torch.uniform_ 3 (fst degrees) (snd degrees) g1 with
      | (Err e, g2) => (Err e, g2)
      | (Ok rotation_params, g2) => (Ok (scaling_params, rotation_params), g2)
      end
  end.

(** [1 / np.array(scaling_params)] followed by [SetScale], which takes the
    first three values and raises when there are fewer.  A parameter 0, for
    which NumPy computes an infinite factor, has no counterpart in [Q]: what
    is proved about the factors is proved for nonzero parameters. *)
Definition get_scaling_transform (scaling_params : list Q)
  : Result Sitk.ScaleTransform :=
  match map (fun s => 1 / s)%Q scaling_params with
  | s0 :: s1 :: s2 :: _ =>
      Ok (Sitk.SetScale (s0, s1, s2) Sitk.new_ScaleTransform)
  | _ => Err (RuntimeError "SetScale: expected a vector of length 3")
  end.

(** [np.radians] *)
Definition radians (d : Q) : R := (Q2R d * PI / 180)%R.

Definition get_rotation_transform (degrees : list Q)
  : Result Sitk.Euler3DTransform :=
  match map radians degrees with
  | [ax; ay; az] => Ok (Sitk.SetRotation ax ay az Sitk.new_Euler3DTransform)
  | _ => Err TypeError
  end.

(** Lines 156-160 of [apply_affine_transform]: the composite of the scaling
    and the rotation. *)
Definition affine_composite (scaling_params rotation_params : list Q)
  : Result Sitk.CompositeTransform :=
  scaling_transform <- get_scaling_transform scaling_params ;;
  rotation_transform <- get_rotation_transform rotation_params ;;
  let transform := Sitk.new_Composite in
  let transform := Sitk.AddTransform (Sitk.TScale scaling_transform) transform in
  let transform := Sitk.AddTransform (Sitk.TEuler3D rotation_transform) transform in
  Ok transform.

(** Lines 162-169: the value given to the voxels that fall outside. *)
Definition default_value (self : RandomAffine) (tensor : Torch.Tensor)
  (image : Sitk.Image) : Result Q :=
  match default_pad_value self with
  | PadNumber v => Ok v
  | PadText t =>
      if String.eqb t "minimum" then Torch.min tensor
      else if String.eqb t "mean" then
        get_borders_mean (Sitk.ArrayView image) false
      else if String.eqb t "otsu" then
        get_borders_mean (Sitk.ArrayView image) true
      else Err (ValueError "could not convert string to float")
  end.

(** Lines 150-177 of [apply_affine_transform]: up to the image the filter
    returns. *)
Definition resampled_image (self : RandomAffine) (tensor : Torch.Tensor)
  (affine : Affine) (scaling_params rotation_params : list Q)
  (interpolation : Interpolation) : Result Sitk.Image :=
  if negb (List.length (Torch.channels tensor) =? 1)%nat then Err AssertionError
  else
    let image :=
      nib_to_sitk (Torch.dtype tensor) (hd [] (Torch.channels tensor)) affine in
    let floating := image in
    let reference := image in
    transform <- affine_composite scaling_params rotation_params ;;
    value <- default_value self tensor image ;;
    let resampler :=
      {| FilterInterpolator := get_sitk_interpolator interpolation;
         ReferenceImage := reference;
         DefaultPixelValue := value;
         OutputPixelType := Sitk.sitkFloat32;
         FilterTransform := transform |} in
    Ok (Execute resampler floating).

Definition apply_affine_transform (self : RandomAffine) (tensor : Torch.Tensor)
  (affine : Affine) (scaling_params rotation_params : list Q)
  (interpolation : Interpolation) : Result Torch.Tensor :=
  resampled <- resampled_image self tensor affine scaling_params
                 rotation_params interpolation ;;
  let np_array := Sitk.ArrayView resampled in
  let np_array := transpose np_array in
  Ok (Torch.assign_first tensor np_array).

(** The loop of [apply_transform] over [sample.values()].  An image record
    is updated in place; an exception leaves the records not yet reached,
    the failing one included, as they were. *)
Fixpoint transform_images (self : RandomAffine)
  (scaling_params rotation_params : list Q) (items : Subject)
  : Result unit * Subject :=
  match items with
  | [] => (Ok tt, [])
  | (key, entry) :: rest =>
      let continue :=
        let (r, rest') :=
          transform_images self scaling_params rotation_params rest in
        (r, (key, entry) :: rest') in
      if negb (is_image_dict entry) then continue
      else
        match entry with
        | EImage image_dict =>
            let interpolation :=
              if ImageType_eqb (TYPE image_dict) LABEL then NEAREST
              else interpolation self in
            match apply_affine_transform self (DATA image_dict)
                    (AFFINE image_dict) scaling_params rotation_params
                    interpolation with
            | Err e => (Err e, items)
            | Ok tensor =>
                let updated :=
                  {| DATA := tensor; AFFINE := AFFINE image_dict;
                     TYPE := TYPE image_dict |} in
                let (r, rest') :=
                  transform_images self scaling_params rotation_params rest in
                (r, (key, EImage updated) :: rest')
            end
        | _ => continue
        end
  end.

(** [apply_transform(sample)]: the outcome, the subject and the generator
    as the call leaves them. *)
Definition apply_transform (self : RandomAffine) (sample : Subject)
  (g : Torch.Generator) : Result unit * Subject * Torch.Generator :=
  match check_consistent_shape sample with
  | Err e => (Err e, sample, g)
  | Ok _ =>
      match get_params (scales self) (degrees self) (isotropic self) g with
      | (Err e, g') => (Err e, sample, g')
      | (Ok (scaling_params, rotation_params), g') =>
          let sample := dict_set "random_scaling" (EFloats scaling_params) sample in
          let sample := dict_set "random_rotation" (EFloats rotation_params) sample in
          let (r, sample) :=
            transform_images self scaling_params rotation_params sample in
          (r, sample, g')
      end
  end.

End Transform.

(** Modelled from the spec: the geometric center of a volume in physical
    space, computed from its shape and its affine map: the affine image of
    the middle index [((nx-1)/2, (ny-1)/2, (nz-1)/2)].  [random_affine.py]
    computes no such point. *)
Definition volume_center (shape : nat * nat * nat) (affine : Affine) : Q * Q * Q :=
  let '(nx, ny, nz) := shape in
  let mid (n : nat) : Q := (inject_Z (Z.of_nat n) - 1) / 2 in
  let coordinate (row : list Q) : Q :=
    nth 0 row 0 * mid nx + nth 1 row 0 * mid ny + nth 2 row 0 * mid nz
    + nth 3 row 0 in
  (coordinate (nth 0 affine []), coordinate (nth 1 affine []),
   coordinate (nth 2 affine [])).

Definition to_point (c : Q * Q * Q) : Sitk.Point :=
  let '(x, y, z) := c in (Q2R x, Q2R y, Q2R z).

Definition identity_affine : Affine :=
  [[1; 0; 0; 0]; [0; 1; 0; 0]; [0; 0; 1; 0]; [0; 0; 0; 1]].

(** ** Inputs used below *)

(** A [3 x 3 x 3] array that is 1 on the slice [array[0]] and 0 elsewhere. *)
Definition slab_of (v : Q) : Numpy.Array2 := [[v; v; v]; [v; v; v]; [v; v; v]].
Definition bright_first_slice : Numpy.Array3 := [slab_of 1; slab_of 0; slab_of 0].

(** A [3 x 3 x 3] array of one intensity. *)
Definition uniform_volume (v : Q) : Numpy.Array3 := [slab_of v; slab_of v; slab_of v].

(** A threshold filter that answers the same value for every input. *)
Definition constant_otsu (threshold : Q) : OtsuFilter :=
  {| OtsuThreshold := fun _ => threshold |}.

(** A generator that counts its draws and always answers [1/2]; conversions
    that keep the value. *)
Definition counting_runtime : Torch.Runtime :=
  {| Torch.Generator := nat;
     Torch.random_unit := fun g => (1 # 2, S g);
     Torch.cast := fun _ v => v |}.

Definition pixel_id_of (d : Torch.DType) : Sitk.PixelID :=
  match d with
  | Torch.uint8 => Sitk.sitkUInt8
  | Torch.int16 => Sitk.sitkInt16
  | Torch.int32 => Sitk.sitkInt32
  | Torch.int64 => Sitk.sitkInt64
  | Torch.float32 => Sitk.sitkFloat32
  | Torch.float64 => Sitk.sitkFloat64
  end.

(** A resampling that returns the pixels of the floating image, on images
    that keep the pixel type of the array and ignore the affine map. *)
Definition copying_resampling : Resampling :=
  {| nib_to_sitk := fun d a _ =>
       {| Sitk.PixelType := pixel_id_of d; Sitk.ArrayView := transpose a;
          Sitk.Origin := (0, 0, 0); Sitk.Spacing := (1, 1, 1);
          Sitk.Direction := [1; 0; 0; 0; 1; 0; 0; 0; 1] |};
     Interpolator := Interpolation;
     get_sitk_interpolator := fun i => i;
     resampled_pixels := fun _ _ _ _ floating => Sitk.ArrayView floating |}.

(** A resampling on which the interpolator shows: nearest-neighbour gives
    the pixels of the floating image back, every other interpolator gives
    them raised by [1/2], values no pixel of a label map has. *)
Definition blending_resampling : Resampling :=
  {| nib_to_sitk := fun d a _ =>
       {| Sitk.PixelType := pixel_id_of d; Sitk.ArrayView := transpose a;
          Sitk.Origin := (0, 0, 0); Sitk.Spacing := (1, 1, 1);
          Sitk.Direction := [1; 0; 0; 0; 1; 0; 0; 0; 1] |};
     Interpolator := Interpolation;
     get_sitk_interpolator := fun i => i;
     resampled_pixels := fun i _ _ _ floating =>
       match i with
       | NEAREST => Sitk.ArrayView floating
       | _ => map (map (map (fun v => v + (1 # 2)))) (Sitk.ArrayView floating)
       end |}.

Definition tensor_of (d : Torch.DType) (a : Numpy.Array3) : Torch.Tensor :=
  {| Torch.dtype := d; Torch.channels := [a] |}.

(** The transform the constructor builds from its default arguments. *)
Definition default_transform : RandomAffine :=
  {| p := 1; seed := None; scales := (9 # 10, 11 # 10);
     degrees := (- (10), 10); isotropic := false;
     default_pad_value := PadText "otsu"; interpolation := LINEAR |}.

Definition image_of (role : ImageType) (d : Torch.DType) (a : Numpy.Array3)
  : ImageDict :=
  {| DATA := tensor_of d a; AFFINE := identity_affine; TYPE := role |}.

(** An intensity volume and a label volume of the same shape. *)
Definition paired_subject : Subject :=
  [("t1"%string, EImage (image_of INTENSITY Torch.float32 bright_first_slice));
   ("seg"%string, EImage (image_of LABEL Torch.float32 (uniform_volume 1)))].

(** An intensity volume of shape [(1, 3, 3, 3)] and a label volume of shape
    [(1, 2, 3, 3)]. *)
Definition mismatched_subject : Subject :=
  [("t1"%string, EImage (image_of INTENSITY Torch.float32 bright_first_slice));
   ("seg"%string, EImage (image_of LABEL Torch.float32 [slab_of 1; slab_of 1]))].

(** ** Notions used to state the further properties *)

(** [d[key]] of a subject, [None] for a missing key. *)
Fixpoint dict_get (key : string) (d : Subject) : option Entry :=
  match d with
  | [] => None
  | (k, e) :: rest => if String.eqb k key then Some e else dict_get key rest
  end.

(** The square of the distance of a point to the physical origin. *)
Definition norm2 (p : Sitk.Point) : R :=
  let '(x, y, z) := p in (x * x + y * y + z * z)%R.

(** A 2D array of [n] rows of [m] values. *)
Definition rectangle (n m : nat) (slab : Numpy.Array2) : Prop :=
  List.length slab = n /\ Forall (fun row => List.length row = m) slab.

(** A rectangular array of [n0] planes of [n1] rows of [n2] values. *)
Definition has_shape (n0 n1 n2 : nat) (array : Numpy.Array3) : Prop :=
  List.length array = n0 /\
  Forall (fun plane =>
            List.length plane = n1 /\
            Forall (fun row => List.length row = n2) plane) array.

(** The values [parse_default_value] lets through. *)
Definition accepted_pad_value (v : PadValue) : Prop :=
  match v with
  | PadNumber _ => True
  | PadText t => t = "minimum"%string \/ t = "otsu"%string \/ t = "mean"%string
  end.

(** A [3 x 3 x 3] array that is 1 on the slice [array[0]] and 3 elsewhere. *)
Definition two_level_volume : Numpy.Array3 := [slab_of 1; slab_of 3; slab_of 3].

(** The default transform with the fill policy ['minimum']. *)
Definition minimum_transform : RandomAffine :=
  {| p := 1; seed := None; scales := (9 # 10, 11 # 10);
     degrees := (- (10), 10); isotropic := false;
     default_pad_value := PadText "minimum"; interpolation := LINEAR |}.

(** The image of the array that is 1 on its first slice. *)
Definition bright_image : Sitk.Image :=
  @nib_to_sitk copying_resampling Torch.float32 bright_first_slice
    identity_affine.

(** What the loop of [apply_transform] may do to an entry: replace the data
    of an image record, keeping its affine map and its type, and nothing
    else. *)
Definition entry_kept (before after : Entry) : Prop :=
  match before with
  | EImage img =>
      exists tensor,
        after = EImage {| DATA := tensor; AFFINE := AFFINE img;
                          TYPE := TYPE img |}
  | e => after = e
  end.

(** An image record whose tensor has two channels. *)
Definition two_channel_image : ImageDict :=
  {| DATA := {| Torch.dtype := Torch.float32;
                Torch.channels := [bright_first_slice; bright_first_slice] |};
     AFFINE := identity_affine; TYPE := INTENSITY |}.

(** * Properties *)

(** ** Border statistics *)

Section BorderFacts.

Import Numpy.
Context {otsu : OtsuFilter}.

Lemma lt_spec (threshold v : Q) : lt threshold v = true <-> (v < threshold)%Q.
Proof.
  unfold lt. rewrite Qlt_alt.
  destruct (v ?= threshold)%Q; split; intros H; congruence.
Qed.

Lemma filter_nil_iff {A : Type} (f : A -> bool) (l : list A) :
  filter f l = [] <-> (forall x, In x l -> f x = false).
Proof.
  induction l as [|a l IH]; simpl.
  - split; [intros _ x []|reflexivity].
  - destruct (f a) eqn:Ha; split.
    + discriminate.
    + intros H. specialize (H a (or_introl eq_refl)). congruence.
    + intros H x [<-|Hx]; [assumption|]. now apply IH.
    + intros H. apply IH. intros x Hx. apply H. now right.
Qed.

Lemma any_false_iff (values : list Q) :
  any values = false <-> (forall v, In v values -> (v == 0)%Q).
Proof.
  unfold any. induction values as [|a l IH]; simpl.
  - split; [intros _ v []|reflexivity].
  - rewrite orb_false_iff, negb_false_iff, Qeq_bool_iff, IH.
    split.
    + intros [Ha Hl] v [<-|Hv]; auto.
    + intros H. split; [apply H; now left|].
      intros v Hv. apply H. now right.
Qed.

Lemma sum_zero_from (values : list Q) (acc : Q) :
  (forall v, In v values -> (v == 0)%Q) ->
  (fold_left Qplus values acc == acc)%Q.
Proof.
  revert acc. induction values as [|a l IH]; simpl; intros acc H.
  - reflexivity.
  - rewrite IH by (intros v Hv; apply H; now right).
    rewrite (H a (or_introl eq_refl)). ring.
Qed.

Lemma mean_of_zeros (values : list Q) :
  (forall v, In v values -> (v == 0)%Q) -> (mean values == 0)%Q.
Proof.
  intros H. unfold mean, sum. rewrite Qred_correct.
  rewrite (sum_zero_from values 0 H). unfold Qdiv. ring.
Qed.

(** What the filtered branch computes, given the border values. *)
Lemma get_borders_mean_filtered (array : Array3) (borders : list Q) :
  border_values array = Ok borders ->
  get_borders_mean array true =
    if any (filter (lt (OtsuThreshold borders)) borders)
    then Ok (mean (filter (lt (OtsuThreshold borders)) borders))
    else Ok (mean borders).
Proof.
  intros H. unfold get_borders_mean. rewrite H. reflexivity.
Qed.

Lemma get_borders_mean_unfiltered (array : Array3) (borders : list Q) :
  border_values array = Ok borders ->
  get_borders_mean array false = Ok (mean borders).
Proof.
  intros H. unfold get_borders_mean. rewrite H. reflexivity.
Qed.

(** The border values the code gathers are the two faces of the first axis
    followed by the six faces of the specification: the first-axis faces
    appear twice. *)
Lemma border_values_duplicate_first_axis (array : Array3) (borders : list Q) :
  border_values array = Ok borders ->
  exists f0 f1 six,
    first array = Ok f0 /\ last_item array = Ok f1 /\
    spec_six_face_values array = Ok six /\
    borders = flatten f0 ++ flatten f1 ++ six.
Proof.
  unfold spec_six_face_values, border_values, border_slabs, border_slices,
    np_array.
  destruct (first array) as [f0|] eqn:H0; cbn [rbind]; [|discriminate].
  destruct (last_item array) as [f1|] eqn:H1; cbn [rbind]; [|discriminate].
  destruct (mapM first array) as [f2|]; cbn [rbind]; [|discriminate].
  destruct (mapM last_item array) as [f3|]; cbn [rbind]; [|discriminate].
  destruct (mapM (mapM first) array) as [f4|]; cbn [rbind]; [|discriminate].
  destruct (mapM (mapM last_item) array) as [f5|]; cbn [rbind];
    [|discriminate].
  destruct (forallb _ _); cbn [rbind]; [|discriminate].
  intros H. injection H as <-. exists f0, f1. eexists.
  repeat split.
Qed.

(** C2 (evaluation at the failing input): on the [3 x 3 x 3] array that is
    1 on the slice [array[0]] and 0 elsewhere, [get_borders_mean] without
    the Otsu filter returns 30/72 = 5/12, the mean over eight slabs with
    the two first-axis faces counted twice, while the mean of the six
    faces, each counted once, is 21/54 = 7/18. *)
Theorem borders_mean_counts_first_axis_faces_twice :
  get_borders_mean bright_first_slice false = Ok (5 # 12) /\
  spec_six_face_mean bright_first_slice = Ok (7 # 18) /\
  get_borders_mean bright_first_slice false
    <> spec_six_face_mean bright_first_slice.
Proof.
  assert (Hcode : get_borders_mean bright_first_slice false = Ok (5 # 12))
    by (vm_compute; reflexivity).
  assert (Hspec : spec_six_face_mean bright_first_slice = Ok (7 # 18))
    by (vm_compute; reflexivity).
  repeat split; try assumption.
  rewrite Hcode, Hspec. discriminate.
Qed.

(** C6: with the Otsu filter on, when no border value lies strictly below
    the threshold, [get_borders_mean] returns the mean of all the border
    values, the value it returns with the filter off; it returns a value,
    not an exception. *)
Theorem otsu_fallback_when_nothing_below (array : Array3) (borders : list Q) :
  border_values array = Ok borders ->
  (forall v, In v borders -> ~ (v < OtsuThreshold borders)%Q) ->
  get_borders_mean array true = Ok (mean borders) /\
  get_borders_mean array true = get_borders_mean array false.
Proof.
  intros Hb Hnone.
  assert (Hempty : filter (lt (OtsuThreshold borders)) borders = []).
  { apply filter_nil_iff. intros v Hv.
    destruct (lt (OtsuThreshold borders) v) eqn:E; [|reflexivity].
    apply lt_spec in E. now elim (Hnone v Hv). }
  rewrite (get_borders_mean_filtered array borders Hb), Hempty.
  rewrite (get_borders_mean_unfiltered array borders Hb). simpl. split; reflexivity.
Qed.

(** C10: with the Otsu filter on, when the border values strictly below the
    threshold are not empty but are all zero, [get_borders_mean] does not
    return their mean (which is 0): it returns the mean of all the border
    values, as with the filter off. *)
Theorem otsu_fallback_when_filtered_all_zero (array : Array3) (borders : list Q) :
  border_values array = Ok borders ->
  filter (lt (OtsuThreshold borders)) borders <> [] ->
  (forall v, In v (filter (lt (OtsuThreshold borders)) borders) -> (v == 0)%Q) ->
  get_borders_mean array true = Ok (mean borders) /\
  get_borders_mean array true = get_borders_mean array false /\
  (mean (filter (lt (OtsuThreshold borders)) borders) == 0)%Q.
Proof.
  intros Hb _ Hzero.
  rewrite (get_borders_mean_filtered array borders Hb).
  rewrite (get_borders_mean_unfiltered array borders Hb).
  rewrite (proj2 (any_false_iff _) Hzero).
  repeat split. now apply mean_of_zeros.
Qed.

End BorderFacts.

(** A uniform volume whose threshold equals its intensity: nothing lies
    strictly below, and the fallback gives the mean of the 72 border values. *)
Lemma otsu_fallback_when_nothing_below_witness :
  @get_borders_mean (constant_otsu 5) (uniform_volume 5) true
    = Ok (Numpy.mean (repeat 5%Q 72)) /\
  @get_borders_mean (constant_otsu 5) (uniform_volume 5) true
    = @get_borders_mean (constant_otsu 5) (uniform_volume 5) false.
Proof.
  apply (@otsu_fallback_when_nothing_below (constant_otsu 5) (uniform_volume 5)
           (repeat 5%Q 72)).
  - reflexivity.
  - intros v Hv. apply repeat_spec in Hv. subst v. simpl.
    intros H. discriminate H.
Defined.

(** The array that is 1 on its first slice, with a threshold of 1/2: the
    values below it are the zeros of the border, and the fallback gives the
    mean of all 72 border values. *)
Lemma otsu_fallback_when_filtered_all_zero_witness :
  @get_borders_mean (constant_otsu (1 # 2)) bright_first_slice true = Ok (5 # 12) /\
  @get_borders_mean (constant_otsu (1 # 2)) bright_first_slice true
    = @get_borders_mean (constant_otsu (1 # 2)) bright_first_slice false.
Proof.
  destruct (@otsu_fallback_when_filtered_all_zero (constant_otsu (1 # 2))
              bright_first_slice
              (repeat 1%Q 9 ++ repeat 0%Q 9 ++ repeat 1%Q 9 ++ repeat 0%Q 9
               ++ [1; 1; 1; 0; 0; 0; 0; 0; 0] ++ [1; 1; 1; 0; 0; 0; 0; 0; 0]
               ++ [1; 1; 1; 0; 0; 0; 0; 0; 0] ++ [1; 1; 1; 0; 0; 0; 0; 0; 0])%Q)
    as (Hmean & Hsame & _).
  - reflexivity.
  - simpl. discriminate.
  - simpl. intros v Hv.
    repeat (destruct Hv as [<-|Hv]; [reflexivity|]). destruct Hv.
  - split; [exact Hmean | exact Hsame].
Defined.

(** ** Sampling and construction *)

Section SamplingFacts.

Context {rt : Torch.Runtime}.

Lemma draws_three (g : Torch.Generator) :
  exists u1 u2 g',
    Torch.draws 3 g = ([fst (Torch.random_unit g); u1; u2], g').
Proof.
  simpl. destruct (Torch.random_unit g) as [u0 g0].
  destruct (Torch.random_unit g0) as [u1 g1].
  destruct (Torch.random_unit g1) as [u2 g2].
  now exists u1, u2, g2.
Qed.

Lemma uniform_three (low high : Q) (g : Torch.Generator) :
  (low <= high)%Q ->
  exists v1 v2 g',
    Torch.uniform_ 3 low high g =
      (Ok [(fst (Torch.random_unit g) * (high - low) + low)%Q; v1; v2], g').
Proof.
  intros H. unfold Torch.uniform_.
  rewrite (proj2 (Qle_bool_iff low high) H).
  destruct (draws_three g) as (u1 & u2 & g' & ->). simpl.
  now eexists _, _, _.
Qed.

Lemma uniform_ok_range (n : nat) (low high : Q) (g g' : Torch.Generator)
  (l : list Q) :
  Torch.uniform_ n low high g = (Ok l, g') -> (low <= high)%Q.
Proof.
  unfold Torch.uniform_. destruct (Qle_bool low high) eqn:E.
  - intros _. now apply Qle_bool_iff.
  - intros H. discriminate H.
Qed.

Lemma uniform_rejects (n : nat) (low high : Q) (g : Torch.Generator) :
  (high < low)%Q ->
  exists e, Torch.uniform_ n low high g = (Err e, g).
Proof.
  intros H. unfold Torch.uniform_.
  destruct (Qle_bool low high) eqn:E.
  - apply Qle_bool_iff in E. exfalso. exact (Qlt_not_le _ _ H E).
  - now eexists.
Qed.

(** C9: a call of [get_params] with [isotropic] set returns, whenever it
    returns, three equal scales, each the first uniform draw
    [u * (high - low) + low] of the call; and it does return when both
    ranges are in order. *)
Theorem isotropic_scales_are_first_draw (scales degrees : Q * Q)
  (g : Torch.Generator) :
  let s := (fst (Torch.random_unit g) * (snd scales - fst scales) + fst scales)%Q in
  (forall scaling rotation g',
      get_params scales degrees true g = (Ok (scaling, rotation), g') ->
      scaling = [s; s; s]) /\
  ((fst scales <= snd scales)%Q -> (fst degrees <= snd degrees)%Q ->
   exists rotation g',
     get_params scales degrees true g = (Ok ([s; s; s], rotation), g')).
Proof.
  intros s. split.
  - intros scaling rotation g' H. unfold get_params in H.
    destruct (Torch.uniform_ 3 (fst scales) (snd scales) g)
      as [[drawn|e] g1] eqn:E1; [|discriminate H].
    destruct (uniform_three _ _ g (uniform_ok_range _ _ _ _ _ _ E1))
      as (v1 & v2 & g1' & E1').
    destruct (Torch.uniform_ 3 (fst degrees) (snd degrees) g1)
      as [[rot|e] g2]; [|discriminate H].
    rewrite E1 in E1'. injection E1' as Hdrawn _. subst drawn.
    injection H as <- _ _. reflexivity.
  - intros Hs Hd. unfold get_params.
    destruct (uniform_three _ _ g Hs) as (v1 & v2 & g1 & ->).
    destruct (uniform_three _ _ g1 Hd) as (w1 & w2 & g2 & ->).
    simpl. now eexists _, _.
Qed.

End SamplingFacts.

(** With the default range [(0.9, 1.1)] and degrees [(-10, 10)], the
    generator that always draws [1/2] gives the scale [0.2/2 + 0.9] on all
    three axes. *)
Lemma isotropic_scales_are_first_draw_witness :
  exists rotation g',
    @get_params counting_runtime (9 # 10, 11 # 10) (- (10), 10) true 0%nat
    = (Ok ([(1 # 2) * ((11 # 10) - (9 # 10)) + (9 # 10);
            (1 # 2) * ((11 # 10) - (9 # 10)) + (9 # 10);
            (1 # 2) * ((11 # 10) - (9 # 10)) + (9 # 10)]%Q, rotation), g').
Proof.
  apply (proj2 (@isotropic_scales_are_first_draw counting_runtime
                  (9 # 10, 11 # 10) (- (10), 10) 0%nat)).
  - simpl. discriminate.
  - simpl. discriminate.
Defined.

(** C3 (evaluation at the failing input): the constructor accepts the scale
    range [(1.1, 0.9)], whose low end exceeds its high end, and keeps it as
    given; the range is refused only when [get_params] samples from it, with
    the error of [uniform_], whatever the generator. *)
Theorem init_accepts_inverted_scales :
  exists self,
    __init__ (11 # 10, 9 # 10) (Single 10) false (PadText "otsu") LINEAR 1 None
      = Ok self /\
    scales self = (11 # 10, 9 # 10) /\
    forall (rt : Torch.Runtime) (g : Torch.Generator),
      get_params (scales self) (degrees self) (isotropic self) g
      = (Err (RuntimeError "uniform_ expects to return a [from, to) range"), g).
Proof.
  eexists. split; [reflexivity|]. split; [reflexivity|].
  intros rt g. reflexivity.
Qed.

(** ** The transforms *)

Section GeometryFacts.

Local Open Scope R_scope.

(** Two points are equal when their three coordinates are. *)
Lemma point_ext (x y z x' y' z' : R) :
  x = x' -> y = y' -> z = z' -> (x, y, z) = (x', y', z').
Proof. intros -> -> ->. reflexivity. Qed.

Ltac point_eq := apply point_ext.

Lemma Q2R_one : Q2R 1 = 1.
Proof. unfold Q2R. simpl. field. Qed.

Lemma Q2R_reciprocal (s : Q) : (0 < s)%Q -> Q2R (1 / s) = / Q2R s.
Proof.
  intros H. rewrite Q2R_div.
  - rewrite Q2R_one. unfold Rdiv. ring.
  - intros E. rewrite E in H. discriminate H.
Qed.

Lemma radians_0 : radians 0 = 0.
Proof. unfold radians. rewrite RMicromega.Q2R_0. unfold Rdiv. ring. Qed.

Lemma radians_180 : radians 180 = PI.
Proof.
  unfold radians, Q2R. simpl. field.
Qed.

(** C5: for positive scaling parameters [(s1, s2, s3)],
    [get_scaling_transform] builds a scale transform whose factor along
    axis i is [1 / si]: it sends the point [(x, y, z)] to
    [(x / s1, y / s2, z / s3)]. *)
Theorem scaling_transform_inverts_parameters (s1 s2 s3 : Q) :
  (0 < s1)%Q -> (0 < s2)%Q -> (0 < s3)%Q ->
  exists t,
    get_scaling_transform [s1; s2; s3] = Ok t /\
    Sitk.Scale t = (1 / s1, 1 / s2, 1 / s3)%Q /\
    forall x y z,
      Sitk.TransformPoint1 (Sitk.TScale t) (x, y, z)
      = (x / Q2R s1, y / Q2R s2, z / Q2R s3).
Proof.
  intros H1 H2 H3. eexists. split; [reflexivity|]. split; [reflexivity|].
  intros x y z. simpl.
  rewrite !Q2R_reciprocal by assumption.
  unfold Rdiv. point_eq; ring.
Qed.

(** C1 (evaluation at the failing input): for the scaling parameters
    [(1, 1, 1)] and the rotation parameters [(0, 0, 180)] the composite
    maps every point [(x, y, z)] to [(-x, -y, z)], a half turn about the
    axis through the physical origin.  The center [(1, 1, 1)] of a
    [3 x 3 x 3] volume with the identity affine map is sent to
    [(-1, -1, 1)]: the rotation is not about the center of the volume. *)
Theorem rotation_is_about_the_origin :
  exists t,
    affine_composite [1; 1; 1]%Q [0; 0; 180]%Q = Ok t /\
    (forall x y z, Sitk.TransformPoint t (x, y, z) = (- x, - y, z)) /\
    to_point (volume_center (3, 3, 3)%nat identity_affine) = (1, 1, 1) /\
    Sitk.TransformPoint t (to_point (volume_center (3, 3, 3)%nat identity_affine))
      = (-1, -1, 1) /\
    Sitk.TransformPoint t (to_point (volume_center (3, 3, 3)%nat identity_affine))
      <> to_point (volume_center (3, 3, 3)%nat identity_affine).
Proof.
  eexists. split; [reflexivity|].
  assert (Hmap : forall x y z,
    Sitk.TransformPoint
      (Sitk.AddTransform
         (Sitk.TEuler3D
            (Sitk.SetRotation (radians 0) (radians 0) (radians 180)
               Sitk.new_Euler3DTransform))
         (Sitk.AddTransform
            (Sitk.TScale
               (Sitk.SetScale (1 / 1, 1 / 1, 1 / 1)%Q Sitk.new_ScaleTransform))
            Sitk.new_Composite)) (x, y, z) = (- x, - y, z)).
  { intros x y z. cbn.
    rewrite radians_0, radians_180, cos_0, sin_0, cos_PI, sin_PI.
    replace (Q2R (1 / 1)) with 1 by (unfold Q2R; simpl; field).
    point_eq; ring. }
  assert (Hcenter :
    to_point (volume_center (3, 3, 3)%nat identity_affine) = (1, 1, 1)).
  { unfold to_point, volume_center, identity_affine, Q2R. simpl.
    point_eq; field. }
  split; [exact Hmap|]. split; [exact Hcenter|].
  rewrite Hcenter, Hmap. split.
  - point_eq; ring.
  - intros H. injection H as H _. lra.
Qed.

End GeometryFacts.

(** The scaling parameters [(2, 2, 2)] give the factor [1/2] on each axis. *)
Lemma scaling_transform_inverts_parameters_witness :
  exists t,
    get_scaling_transform [2; 2; 2]%Q = Ok t /\
    Sitk.Scale t = (1 / 2, 1 / 2, 1 / 2)%Q /\
    forall x y z,
      Sitk.TransformPoint1 (Sitk.TScale t) (x, y, z)
      = (x / Q2R 2, y / Q2R 2, z / Q2R 2)%R.
Proof.
  apply (scaling_transform_inverts_parameters 2 2 2); reflexivity.
Defined.

(** ** Applying the transform to a subject *)

Section ApplyFacts.

Context {rt : Torch.Runtime} {rs : Resampling} {otsu : OtsuFilter}.
Local Open Scope string_scope.

Lemma image_shape_listed (sample : Subject) (key : string) (img : ImageDict) :
  In (key, EImage img) sample ->
  In (Torch.shape (DATA img)) (image_shapes sample).
Proof.
  intros H. unfold image_shapes. apply in_flat_map.
  exists (key, EImage img). split; [assumption|]. simpl. now left.
Qed.

Lemma check_consistent_shape_rejects (sample : Subject)
  (k1 k2 : string) (img1 img2 : ImageDict) :
  In (k1, EImage img1) sample ->
  In (k2, EImage img2) sample ->
  Torch.shape (DATA img1) <> Torch.shape (DATA img2) ->
  check_consistent_shape sample
  = Err (ValueError "Images in sample have inconsistent shapes").
Proof.
  intros H1 H2 Hne.
  apply image_shape_listed in H1. apply image_shape_listed in H2.
  unfold check_consistent_shape.
  destruct (image_shapes sample) as [|s others]; [destruct H1|].
  destruct (forallb _ others) eqn:E; [|reflexivity].
  exfalso. rewrite forallb_forall in E.
  assert (Hall : forall s', In s' (s :: others) -> s' = s).
  { intros s' [<-|Hs']; [reflexivity|].
    specialize (E s' Hs'). now destruct (list_eq_dec Nat.eq_dec s s'). }
  apply Hne. now rewrite (Hall _ H1), (Hall _ H2).
Qed.

(** C8: when two image volumes of the subject differ in shape,
    [apply_transform] raises the error of the shape check and leaves the
    subject and the generator exactly as they were: nothing was sampled
    and no volume was touched. *)
Theorem shape_mismatch_leaves_subject_untouched (self : RandomAffine)
  (sample : Subject) (g : Torch.Generator)
  (k1 k2 : string) (img1 img2 : ImageDict) :
  In (k1, EImage img1) sample ->
  In (k2, EImage img2) sample ->
  Torch.shape (DATA img1) <> Torch.shape (DATA img2) ->
  apply_transform self sample g
  = (Err (ValueError "Images in sample have inconsistent shapes"), sample, g).
Proof.
  intros H1 H2 Hne. unfold apply_transform.
  now rewrite (check_consistent_shape_rejects sample k1 k2 img1 img2 H1 H2 Hne).
Qed.

Lemma dict_set_keeps_other (key k : string) (e old : Entry) (d : Subject) :
  k <> key -> In (k, old) d -> In (k, old) (dict_set key e d).
Proof.
  intros Hk. induction d as [|[k' e'] d IH]; simpl; [intros []|].
  intros [H|H].
  - injection H as -> ->.
    destruct (String.eqb k key) eqn:E.
    + apply String.eqb_eq in E. contradiction.
    + now left.
  - destruct (String.eqb k' key); right; auto.
Qed.

Lemma transform_images_each (self : RandomAffine) (sp rp : list Q)
  (items out : Subject) :
  transform_images self sp rp items = (Ok tt, out) ->
  forall key img,
    In (key, EImage img) items ->
    exists tensor,
      apply_affine_transform self (DATA img) (AFFINE img) sp rp
        (if ImageType_eqb (TYPE img) LABEL then NEAREST
         else interpolation self) = Ok tensor /\
      In (key, EImage {| DATA := tensor; AFFINE := AFFINE img;
                         TYPE := TYPE img |}) out.
Proof.
  revert out. induction items as [|[k e] rest IH]; intros out H key img Hin.
  - destruct Hin.
  - simpl in H.
    destruct e as [image|values|text]; simpl in H.
    + destruct (apply_affine_transform self (DATA image) (AFFINE image) sp rp
                  (if ImageType_eqb (TYPE image) LABEL then NEAREST
                   else interpolation self)) as [tensor|ex] eqn:E;
        [|discriminate H].
      destruct (transform_images self sp rp rest) as [r rest'] eqn:Er.
      injection H as -> <-.
      destruct Hin as [Hin|Hin].
      * injection Hin as -> ->. exists tensor. split; [exact E|now left].
      * destruct (IH rest' eq_refl key img Hin) as (t & Ht & Hout).
        exists t. split; [exact Ht|now right].
    + destruct (transform_images self sp rp rest) as [r rest'] eqn:Er.
      injection H as -> <-.
      destruct Hin as [Hin|Hin]; [discriminate Hin|].
      destruct (IH rest' eq_refl key img Hin) as (t & Ht & Hout).
      exists t. split; [exact Ht|now right].
    + destruct (transform_images self sp rp rest) as [r rest'] eqn:Er.
      injection H as -> <-.
      destruct Hin as [Hin|Hin]; [discriminate Hin|].
      destruct (IH rest' eq_refl key img Hin) as (t & Ht & Hout).
      exists t. split; [exact Ht|now right].
Qed.

(** What a call of [apply_affine_transform] that returns has done: the
    filter ran on the image of the tensor, as floating and as reference
    image, with the interpolator of the interpolation handed in, and its
    pixels, transposed, were written into the tensor. *)
Lemma apply_affine_transform_ok_inv (self : RandomAffine)
  (tensor result : Torch.Tensor) (affine : Affine) (sp rp : list Q)
  (i : Interpolation) :
  apply_affine_transform self tensor affine sp rp i = Ok result ->
  exists transform value,
    affine_composite sp rp = Ok transform /\
    default_value self tensor
      (nib_to_sitk (Torch.dtype tensor) (hd [] (Torch.channels tensor)) affine)
      = Ok value /\
    result =
      Torch.assign_first tensor
        (transpose
           (resampled_pixels (get_sitk_interpolator i)
              (nib_to_sitk (Torch.dtype tensor) (hd [] (Torch.channels tensor))
                 affine)
              value transform
              (nib_to_sitk (Torch.dtype tensor) (hd [] (Torch.channels tensor))
                 affine))).
Proof.
  unfold apply_affine_transform, resampled_image.
  destruct (negb _); [discriminate|].
  destruct (affine_composite sp rp) as [t|]; cbn [rbind]; [|discriminate].
  destruct (default_value _ _ _) as [v|]; cbn [rbind]; [|discriminate].
  intros H. injection H as <-. exists t, v. repeat split.
Qed.

(** C7: in a run of [apply_transform] that completes, every image record of
    the subject is resampled by [apply_affine_transform] with the sampled
    parameters and with the interpolation [NEAREST] when its type is
    [LABEL], whatever interpolation was configured, and with the configured
    interpolation otherwise; the result replaces its data.  The resampling
    filter itself runs with the interpolator of that interpolation: the new
    data are the pixels the filter computes with it, transposed and written
    into the tensor. *)
Theorem label_images_resampled_with_nearest (self : RandomAffine)
  (sample out : Subject) (g g' : Torch.Generator) :
  apply_transform self sample g = (Ok tt, out, g') ->
  exists scaling rotation,
    get_params (scales self) (degrees self) (isotropic self) g
      = (Ok (scaling, rotation), g') /\
    forall key img,
      In (key, EImage img) sample ->
      key <> "random_scaling" -> key <> "random_rotation" ->
      exists tensor,
        apply_affine_transform self (DATA img) (AFFINE img) scaling rotation
          (match TYPE img with
           | LABEL => NEAREST
           | INTENSITY => interpolation self
           end) = Ok tensor /\
        In (key, EImage {| DATA := tensor; AFFINE := AFFINE img;
                           TYPE := TYPE img |}) out /\
        exists transform value,
          let image :=
            nib_to_sitk (Torch.dtype (DATA img))
              (hd [] (Torch.channels (DATA img))) (AFFINE img) in
          affine_composite scaling rotation = Ok transform /\
          default_value self (DATA img) image = Ok value /\
          tensor =
            Torch.assign_first (DATA img)
              (transpose
                 (resampled_pixels
                    (get_sitk_interpolator
                       (match TYPE img with
                        | LABEL => NEAREST
                        | INTENSITY => interpolation self
                        end))
                    image value transform image)).
Proof.
  unfold apply_transform.
  destruct (check_consistent_shape sample); [|discriminate].
  destruct (get_params _ _ _ g) as [[[sp rp]|e] g1]; [|discriminate].
  destruct (transform_images self sp rp _) as [r final] eqn:E.
  intros H. injection H as -> -> ->.
  exists sp, rp. split; [reflexivity|].
  intros key img Hin Hs Hr.
  destruct (transform_images_each _ _ _ _ _ E key img) as (t & Ht & Hout).
  - apply dict_set_keeps_other; [assumption|].
    apply dict_set_keeps_other; assumption.
  - assert (Ht' : apply_affine_transform self (DATA img) (AFFINE img) sp rp
                    (match TYPE img with
                     | LABEL => NEAREST
                     | INTENSITY => interpolation self
                     end) = Ok t) by now destruct (TYPE img).
    exists t. split; [exact Ht'|]. split; [exact Hout|].
    destruct (apply_affine_transform_ok_inv _ _ _ _ _ _ _ Ht')
      as (composite & fill & Hc & Hv & Hres).
    exists composite, fill. cbv zeta. repeat split; assumption.
Qed.

(** C4 (as amended): the image the resampling filter returns has the pixel
    type [sitkFloat32], whatever the element type of the source tensor;
    the tensor [apply_affine_transform] returns keeps the element type of
    the source tensor, into which the resampled values are written. *)
Theorem resampled_float32_stored_in_source_dtype (self : RandomAffine)
  (tensor : Torch.Tensor) (affine : Affine) (sp rp : list Q)
  (i : Interpolation) :
  (forall img,
      resampled_image self tensor affine sp rp i = Ok img ->
      Sitk.PixelType img = Sitk.sitkFloat32) /\
  (forall result,
      apply_affine_transform self tensor affine sp rp i = Ok result ->
      Torch.dtype result = Torch.dtype tensor).
Proof.
  split.
  - intros img. unfold resampled_image.
    destruct (negb _); [discriminate|].
    destruct (affine_composite sp rp) as [t|]; simpl; [|discriminate].
    destruct (default_value _ _ _) as [v|]; simpl; [|discriminate].
    intros H. injection H as <-. reflexivity.
  - intros result. unfold apply_affine_transform.
    destruct (resampled_image _ _ _ _ _ _) as [img|]; simpl; [|discriminate].
    intros H. injection H as <-. reflexivity.
Qed.

End ApplyFacts.

(** A subject whose label volume has two slices where the intensity volume
    has three is refused, and comes back as it was, with the generator still
    at its first draw. *)
Lemma shape_mismatch_leaves_subject_untouched_witness :
  @apply_transform counting_runtime copying_resampling (constant_otsu (1 # 2))
    default_transform mismatched_subject 0%nat
  = (Err (ValueError "Images in sample have inconsistent shapes"),
     mismatched_subject, 0%nat).
Proof.
  apply (@shape_mismatch_leaves_subject_untouched
           counting_runtime copying_resampling (constant_otsu (1 # 2))
           default_transform mismatched_subject 0%nat
           "t1" "seg"
           (image_of INTENSITY Torch.float32 bright_first_slice)
           (image_of LABEL Torch.float32 [slab_of 1; slab_of 1])).
  - simpl. now left.
  - simpl. right. now left.
  - simpl. discriminate.
Defined.

(** On the paired subject, with a transform configured with [LINEAR] and a
    resampler that raises every pixel by [1/2] unless it interpolates by
    nearest neighbour, the label volume comes back with its labels: it was
    resampled with [NEAREST]. *)
Lemma label_images_resampled_with_nearest_witness :
  exists scaling rotation tensor,
    @apply_affine_transform counting_runtime blending_resampling
      (constant_otsu (1 # 2)) default_transform
      (tensor_of Torch.float32 (uniform_volume 1)) identity_affine
      scaling rotation NEAREST = Ok tensor /\
    In ("seg"%string,
        EImage {| DATA := tensor; AFFINE := identity_affine; TYPE := LABEL |})
       (snd (fst (@apply_transform counting_runtime blending_resampling
                    (constant_otsu (1 # 2)) default_transform
                    paired_subject 0%nat))) /\
    tensor = tensor_of Torch.float32 (uniform_volume 1).
Proof.
  destruct (@label_images_resampled_with_nearest
              counting_runtime blending_resampling (constant_otsu (1 # 2))
              default_transform paired_subject
              (snd (fst (@apply_transform counting_runtime blending_resampling
                           (constant_otsu (1 # 2)) default_transform
                           paired_subject 0%nat)))
              0%nat
              (snd (@apply_transform counting_runtime blending_resampling
                      (constant_otsu (1 # 2)) default_transform
                      paired_subject 0%nat))
              eq_refl)
    as (scaling & rotation & _ & Hall).
  destruct (Hall "seg"%string (image_of LABEL Torch.float32 (uniform_volume 1)))
    as (tensor & Hrun & Hin & transform & value & _ & _ & Hdata).
  - simpl. right. now left.
  - discriminate.
  - discriminate.
  - exists scaling, rotation, tensor.
    split; [exact Hrun|]. split; [exact Hin|]. exact Hdata.
Defined.

(** C4 (counterexample): a tensor of element type [float64] comes back from
    [apply_affine_transform] with the element type [float64]; the result is
    not stored in single precision whatever the source. *)
Lemma stored_precision_counterexample :
  ~ (forall (rt : Torch.Runtime) (rs : Resampling) (otsu : OtsuFilter)
       (self : RandomAffine) (tensor : Torch.Tensor) (affine : Affine)
       (sp rp : list Q) (i : Interpolation) (result : Torch.Tensor),
        apply_affine_transform self tensor affine sp rp i = Ok result ->
        Torch.dtype result = Torch.float32).
Proof.
  intros H.
  specialize (H counting_runtime copying_resampling (constant_otsu (1 # 2))
                default_transform
                (tensor_of Torch.float64 bright_first_slice) identity_affine
                [1; 1; 1] [0; 0; 0] LINEAR _ eq_refl).
  discriminate H.
Qed.

(** For a [float64] tensor the filter returns a [sitkFloat32] image and the
    tensor returned is [float64]. *)
Lemma resampled_float32_stored_in_source_dtype_witness :
  exists img result,
    @resampled_image copying_resampling (constant_otsu (1 # 2))
      default_transform (tensor_of Torch.float64 bright_first_slice)
      identity_affine [1; 1; 1] [0; 0; 0] LINEAR = Ok img /\
    Sitk.PixelType img = Sitk.sitkFloat32 /\
    @apply_affine_transform counting_runtime copying_resampling
      (constant_otsu (1 # 2)) default_transform
      (tensor_of Torch.float64 bright_first_slice)
      identity_affine [1; 1; 1] [0; 0; 0] LINEAR = Ok result /\
    Torch.dtype result = Torch.float64.
Proof.
  destruct (@resampled_float32_stored_in_source_dtype
              counting_runtime copying_resampling (constant_otsu (1 # 2))
              default_transform (tensor_of Torch.float64 bright_first_slice)
              identity_affine [1; 1; 1] [0; 0; 0] LINEAR) as [Himg Hresult].
  eexists. eexists.
  split; [reflexivity|].
  split; [apply Himg; reflexivity|].
  split; [reflexivity|].
  apply Hresult. reflexivity.
Defined.

(** * Further properties *)

(** ** Sampling *)

Section MoreSamplingFacts.

Context {rt : Torch.Runtime}.

Lemma draws_length (n : nat) (g : Torch.Generator) :
  List.length (fst (Torch.draws n g)) = n.
Proof.
  revert g. induction n as [|n IH]; intros g; simpl; [reflexivity|].
  destruct (Torch.random_unit g) as [u g1].
  specialize (IH g1). destruct (Torch.draws n g1) as [us g2].
  simpl in *. now rewrite IH.
Qed.

Lemma draws_split (n m : nat) (g : Torch.Generator) :
  Torch.draws (n + m) g =
    (fst (Torch.draws n g) ++ fst (Torch.draws m (snd (Torch.draws n g))),
     snd (Torch.draws m (snd (Torch.draws n g)))).
Proof.
  revert g. induction n as [|n IH]; intros g; simpl.
  - now destruct (Torch.draws m g).
  - destruct (Torch.random_unit g) as [u g1]. rewrite IH.
    destruct (Torch.draws n g1) as [us g2]. simpl.
    now destruct (Torch.draws m g2).
Qed.

Lemma uniform_accepts (n : nat) (low high : Q) (g : Torch.Generator) :
  (low <= high)%Q ->
  Torch.uniform_ n low high g =
    (Ok (map (fun u => u * (high - low) + low)%Q (fst (Torch.draws n g))),
     snd (Torch.draws n g)).
Proof.
  intros H. unfold Torch.uniform_.
  rewrite (proj2 (Qle_bool_iff low high) H).
  now destruct (Torch.draws n g).
Qed.

Lemma uniform_refuses (n : nat) (low high : Q) (g : Torch.Generator) :
  (high < low)%Q ->
  Torch.uniform_ n low high g =
    (Err (RuntimeError "uniform_ expects to return a [from, to) range"), g).
Proof.
  intros H. unfold Torch.uniform_.
  destruct (Qle_bool low high) eqn:E; [|reflexivity].
  apply Qle_bool_iff in E. exfalso. exact (Qlt_not_le _ _ H E).
Qed.

Lemma uniform_ok_inv (n : nat) (low high : Q) (g g' : Torch.Generator)
  (l : list Q) :
  Torch.uniform_ n low high g = (Ok l, g') ->
  (low <= high)%Q /\
  l = map (fun u => u * (high - low) + low)%Q (fst (Torch.draws n g)) /\
  g' = snd (Torch.draws n g).
Proof.
  intros H. pose proof (uniform_ok_range _ _ _ _ _ _ H) as Hr.
  rewrite (uniform_accepts n low high g Hr) in H.
  injection H as <- <-. repeat split. assumption.
Qed.

(** What a completed call of [get_params] returned, in terms of the draws. *)
Lemma get_params_ok_inv (scales degrees : Q * Q) (isotropic : bool)
  (g g' : Torch.Generator) (scaling rotation : list Q) :
  get_params scales degrees isotropic g = (Ok (scaling, rotation), g') ->
  let drawn :=
    map (fun u => u * (snd scales - fst scales) + fst scales)%Q
      (fst (Torch.draws 3 g)) in
  (fst scales <= snd scales)%Q /\ (fst degrees <= snd degrees)%Q /\
  scaling = (if isotropic then Torch.fill_ (hd 0%Q drawn) drawn else drawn) /\
  rotation =
    map (fun u => u * (snd degrees - fst degrees) + fst degrees)%Q
      (fst (Torch.draws 3 (snd (Torch.draws 3 g)))) /\
  g' = snd (Torch.draws 6 g).
Proof.
  unfold get_params. intros H.
  destruct (Torch.uniform_ 3 (fst scales) (snd scales) g)
    as [[drawn|e] g1] eqn:E1; [|discriminate H].
  destruct (uniform_ok_inv _ _ _ _ _ _ E1) as (Hs & -> & ->).
  destruct (Torch.uniform_ 3 (fst degrees) (snd degrees) _)
    as [[rot|e] g2] eqn:E2; [|discriminate H].
  destruct (uniform_ok_inv _ _ _ _ _ _ E2) as (Hd & -> & ->).
  injection H as <- <- <-.
  repeat split; try assumption.
  change 6%nat with (3 + 3)%nat. now rewrite draws_split.
Qed.

(** X1: a call of [get_params] that returns has consumed exactly six draws
    of the generator: the scales come from the first three (all of them from
    the first one when [isotropic] is set), the rotations from the next
    three. *)
Theorem get_params_consumes_six_draws (scales degrees : Q * Q)
  (isotropic : bool) (g : Torch.Generator) :
  (fst scales <= snd scales)%Q -> (fst degrees <= snd degrees)%Q ->
  let us := fst (Torch.draws 6 g) in
  let s (i : nat) := (nth i us 0 * (snd scales - fst scales) + fst scales)%Q in
  let r (i : nat) := (nth i us 0 * (snd degrees - fst degrees) + fst degrees)%Q in
  get_params scales degrees isotropic g =
    (Ok (if isotropic then [s 0; s 0; s 0] else [s 0; s 1; s 2],
         [r 3; r 4; r 5])%nat,
     snd (Torch.draws 6 g)).
Proof.
  intros Hs Hd. unfold get_params.
  rewrite (uniform_accepts 3 _ _ g Hs), (uniform_accepts 3 _ _ _ Hd).
  change 6%nat with (3 + 3)%nat. rewrite draws_split.
  pose proof (draws_length 3 g) as L1.
  pose proof (draws_length 3 (snd (Torch.draws 3 g))) as L2.
  destruct (Torch.draws 3 g) as [us1 g1]. cbn [fst snd] in *.
  destruct (Torch.draws 3 g1) as [us2 g2]. cbn [fst snd] in *.
  destruct us1 as [|a [|b [|c [|]]]]; try discriminate L1.
  destruct us2 as [|d [|e [|f [|]]]]; try discriminate L2.
  destruct isotropic; reflexivity.
Qed.

(** X2: setting [isotropic] changes nothing but the second and third scale:
    with the flag off the same call returns the same first scale, the same
    rotations and leaves the generator in the same state. *)
Theorem isotropic_changes_only_two_scales (scales degrees : Q * Q)
  (g g' : Torch.Generator) (scaling rotation : list Q) :
  get_params scales degrees true g = (Ok (scaling, rotation), g') ->
  exists scaling',
    get_params scales degrees false g = (Ok (scaling', rotation), g') /\
    hd 0%Q scaling' = hd 0%Q scaling /\
    List.length scaling' = List.length scaling.
Proof.
  intros H. destruct (get_params_ok_inv _ _ _ _ _ _ _ H)
    as (Hs & Hd & -> & -> & ->).
  eexists. split.
  - unfold get_params.
    rewrite (uniform_accepts 3 _ _ g Hs), (uniform_accepts 3 _ _ _ Hd).
    change 6%nat with (3 + 3)%nat. rewrite draws_split. reflexivity.
  - split.
    + unfold Torch.fill_.
      destruct (map _ (fst (Torch.draws 3 g))); reflexivity.
    + unfold Torch.fill_. now rewrite !length_map.
Qed.

(** X4: a scale range with [low > high] makes [get_params] raise before any
    draw, the generator untouched; a range of degrees with [low > high]
    makes it raise after the three draws for the scales were consumed. *)
Theorem get_params_failures (scales degrees : Q * Q) (isotropic : bool)
  (g : Torch.Generator) :
  ((snd scales < fst scales)%Q ->
   get_params scales degrees isotropic g =
     (Err (RuntimeError "uniform_ expects to return a [from, to) range"), g)) /\
  ((fst scales <= snd scales)%Q -> (snd degrees < fst degrees)%Q ->
   get_params scales degrees isotropic g =
     (Err (RuntimeError "uniform_ expects to return a [from, to) range"),
      snd (Torch.draws 3 g))).
Proof.
  split.
  - intros H. unfold get_params. now rewrite (uniform_refuses 3 _ _ g H).
  - intros Hs Hd. unfold get_params.
    rewrite (uniform_accepts 3 _ _ g Hs). now rewrite (uniform_refuses 3 _ _ _ Hd).
Qed.

Lemma get_params_returns (scales degrees : Q * Q) (isotropic : bool)
  (g : Torch.Generator) :
  (fst scales <= snd scales)%Q -> (fst degrees <= snd degrees)%Q ->
  exists scaling rotation,
    get_params scales degrees isotropic g
    = (Ok (scaling, rotation), snd (Torch.draws 6 g)).
Proof.
  intros Hs Hd. unfold get_params.
  rewrite (uniform_accepts 3 _ _ g Hs), (uniform_accepts 3 _ _ _ Hd).
  change 6%nat with (3 + 3)%nat. rewrite draws_split. now eexists _, _.
Qed.

Lemma sampled_lists_of_three (scales degrees : Q * Q) (isotropic : bool)
  (g g' : Torch.Generator) (scaling rotation : list Q) :
  get_params scales degrees isotropic g = (Ok (scaling, rotation), g') ->
  exists s1 s2 s3 d1 d2 d3,
    scaling = [s1; s2; s3] /\ rotation = [d1; d2; d3].
Proof.
  intros H.
  destruct (get_params_ok_inv _ _ _ _ _ _ _ H) as (_ & _ & -> & -> & _).
  pose proof (draws_length 3 g) as L1.
  pose proof (draws_length 3 (snd (Torch.draws 3 g))) as L2.
  destruct (fst (Torch.draws 3 g)) as [|a [|b [|c [|]]]]; try discriminate L1.
  destruct (fst (Torch.draws 3 (snd (Torch.draws 3 g))))
    as [|d [|e [|f [|]]]]; try discriminate L2.
  destruct isotropic; simpl; now eexists _, _, _, _, _, _.
Qed.

(** X5: the parameters a completed call of [get_params] returns always
    build a composite transform: three scales and three angles. *)
Theorem sampled_parameters_build_a_transform (scales degrees : Q * Q)
  (isotropic : bool) (g g' : Torch.Generator) (scaling rotation : list Q) :
  get_params scales degrees isotropic g = (Ok (scaling, rotation), g') ->
  List.length scaling = 3%nat /\ List.length rotation = 3%nat /\
  exists t, affine_composite scaling rotation = Ok t.
Proof.
  intros H.
  destruct (sampled_lists_of_three _ _ _ _ _ _ _ H)
    as (s1 & s2 & s3 & d1 & d2 & d3 & -> & ->).
  repeat split. now eexists.
Qed.

End MoreSamplingFacts.

(** The default ranges with the generator that always draws [1/2]: the
    scales are [0.2/2 + 0.9], the rotations [20/2 - 10], six draws later. *)
Lemma get_params_consumes_six_draws_witness :
  @get_params counting_runtime (9 # 10, 11 # 10) (- (10), 10) false 0%nat =
    (Ok ([(1 # 2) * ((11 # 10) - (9 # 10)) + (9 # 10);
          (1 # 2) * ((11 # 10) - (9 # 10)) + (9 # 10);
          (1 # 2) * ((11 # 10) - (9 # 10)) + (9 # 10)],
         [(1 # 2) * (10 - - (10)) + - (10);
          (1 # 2) * (10 - - (10)) + - (10);
          (1 # 2) * (10 - - (10)) + - (10)])%Q, 6%nat).
Proof.
  apply (@get_params_consumes_six_draws counting_runtime
           (9 # 10, 11 # 10) (- (10), 10) false 0%nat).
  - simpl. discriminate.
  - simpl. discriminate.
Defined.

Lemma isotropic_changes_only_two_scales_witness :
  exists scaling',
    @get_params counting_runtime (9 # 10, 11 # 10) (- (10), 10) false 0%nat =
      (Ok (scaling',
           [(1 # 2) * (10 - - (10)) + - (10);
            (1 # 2) * (10 - - (10)) + - (10);
            (1 # 2) * (10 - - (10)) + - (10)]%Q), 6%nat) /\
    hd 0%Q scaling' = ((1 # 2) * ((11 # 10) - (9 # 10)) + (9 # 10))%Q /\
    List.length scaling' = 3%nat.
Proof.
  apply (@isotropic_changes_only_two_scales counting_runtime
           (9 # 10, 11 # 10) (- (10), 10) 0%nat 6%nat
           [(1 # 2) * ((11 # 10) - (9 # 10)) + (9 # 10);
            (1 # 2) * ((11 # 10) - (9 # 10)) + (9 # 10);
            (1 # 2) * ((11 # 10) - (9 # 10)) + (9 # 10)]%Q
           [(1 # 2) * (10 - - (10)) + - (10);
            (1 # 2) * (10 - - (10)) + - (10);
            (1 # 2) * (10 - - (10)) + - (10)]%Q).
  reflexivity.
Defined.

(** The range [(1.1, 0.9)] is refused at the first draw; the degrees
    [(10, -10)] are refused three draws later. *)
Lemma get_params_failures_witness :
  @get_params counting_runtime (11 # 10, 9 # 10) (- (10), 10) false 0%nat =
    (Err (RuntimeError "uniform_ expects to return a [from, to) range"), 0%nat) /\
  @get_params counting_runtime (9 # 10, 11 # 10) (10, - (10)) false 0%nat =
    (Err (RuntimeError "uniform_ expects to return a [from, to) range"), 3%nat).
Proof.
  split.
  - apply (proj1 (@get_params_failures counting_runtime
                    (11 # 10, 9 # 10) (- (10), 10) false 0%nat)).
    reflexivity.
  - apply (proj2 (@get_params_failures counting_runtime
                    (9 # 10, 11 # 10) (10, - (10)) false 0%nat)).
    + simpl. discriminate.
    + reflexivity.
Defined.

Lemma sampled_parameters_build_a_transform_witness :
  exists t,
    affine_composite
      [(1 # 2) * ((11 # 10) - (9 # 10)) + (9 # 10);
       (1 # 2) * ((11 # 10) - (9 # 10)) + (9 # 10);
       (1 # 2) * ((11 # 10) - (9 # 10)) + (9 # 10)]%Q
      [(1 # 2) * (10 - - (10)) + - (10);
       (1 # 2) * (10 - - (10)) + - (10);
       (1 # 2) * (10 - - (10)) + - (10)]%Q = Ok t.
Proof.
  apply (@sampled_parameters_build_a_transform counting_runtime
           (9 # 10, 11 # 10) (- (10), 10) true 0%nat 6%nat).
  reflexivity.
Defined.

(** ** More on the border statistics *)

Section MoreBorderFacts.

Import Numpy.
Context {otsu : OtsuFilter}.

Lemma count_succ (n : nat) :
  (inject_Z (Z.of_nat (S n)) == inject_Z (Z.of_nat n) + 1)%Q.
Proof.
  rewrite Nat2Z.inj_succ. unfold Z.succ. now rewrite inject_Z_plus.
Qed.

Lemma count_positive (A : Type) (l : list A) :
  l <> [] -> (0 < inject_Z (Z.of_nat (List.length l)))%Q.
Proof.
  destruct l as [|a l]; [congruence|]. intros _.
  rewrite <- (Zlt_Qlt 0). simpl List.length. rewrite Nat2Z.inj_succ.
  apply Z.lt_succ_r. apply Nat2Z.is_nonneg.
Qed.

Lemma sum_below (hi : Q) (l : list Q) (acc : Q) :
  l <> [] ->
  (forall v, In v l -> (v < hi)%Q) ->
  (fold_left Qplus l acc < acc + inject_Z (Z.of_nat (List.length l)) * hi)%Q.
Proof.
  revert acc. induction l as [|a l IH]; intros acc Hne H; [congruence|].
  pose proof (H a (or_introl eq_refl)) as Ha.
  simpl fold_left. simpl List.length.
  rewrite (count_succ (List.length l)).
  destruct l as [|b l].
  - simpl. change (inject_Z 0) with 0%Q. Lqa.lra.
  - assert (I : (fold_left Qplus (b :: l) (acc + a) <
                 (acc + a) + inject_Z (Z.of_nat (List.length (b :: l))) * hi)%Q).
    { apply IH; [discriminate|]. intros v Hv. apply H. now right. }
    Lqa.lra.
Qed.

Lemma mean_below (hi : Q) (l : list Q) :
  l <> [] -> (forall v, In v l -> (v < hi)%Q) -> (mean l < hi)%Q.
Proof.
  intros Hne H. unfold mean, sum. rewrite Qred_correct.
  pose proof (count_positive _ l Hne) as Hn.
  pose proof (sum_below hi l 0 Hne H) as S.
  apply Qlt_shift_div_r; [exact Hn|]. Lqa.lra.
Qed.

Lemma first_in {A : Type} (l : list A) (x : A) : first l = Ok x -> In x l.
Proof.
  destruct l as [|a l]; simpl; [discriminate|].
  intros H. injection H as ->. now left.
Qed.

Lemma last_item_in {A : Type} (l : list A) (x : A) :
  last_item l = Ok x -> In x l.
Proof.
  induction l as [|a l IH]; simpl; [discriminate|].
  destruct l as [|b l].
  - intros H. injection H as ->. now left.
  - intros H. right. now apply IH.
Qed.

Lemma mapM_Forall2 {A B : Type} (f : A -> Result B) (l : list A) (ys : list B) :
  mapM f l = Ok ys -> Forall2 (fun x y => f x = Ok y) l ys.
Proof.
  revert ys. induction l as [|a l IH]; simpl; intros ys H.
  - injection H as <-. constructor.
  - destruct (f a) as [y|] eqn:Ea; simpl in H; [|discriminate].
    destruct (mapM f l) as [ys'|]; simpl in H; [|discriminate].
    injection H as <-. constructor; [exact Ea|now apply IH].
Qed.

(** The slices behind the border values, when there are border values: all
    of one shape, and flattened in the order written. *)
Lemma border_values_slabs (array : Array3) (borders : list Q) :
  border_values array = Ok borders ->
  exists b0 b1 b4 b5 b6 b7,
    first array = Ok b0 /\ last_item array = Ok b1 /\
    mapM first array = Ok b4 /\ mapM last_item array = Ok b5 /\
    mapM (mapM first) array = Ok b6 /\
    mapM (mapM last_item) array = Ok b7 /\
    np_array [b0; b1; b0; b1; b4; b5; b6; b7]
      = Ok [b0; b1; b0; b1; b4; b5; b6; b7] /\
    borders = flatten b0 ++ flatten b1 ++ flatten b0 ++ flatten b1
              ++ flatten b4 ++ flatten b5 ++ flatten b6 ++ flatten b7.
Proof.
  unfold border_values, border_slabs, border_slices.
  destruct (first array) as [b0|]; cbn [rbind]; [|discriminate].
  destruct (last_item array) as [b1|]; cbn [rbind]; [|discriminate].
  destruct (mapM first array) as [b4|]; cbn [rbind]; [|discriminate].
  destruct (mapM last_item array) as [b5|]; cbn [rbind]; [|discriminate].
  destruct (mapM (mapM first) array) as [b6|]; cbn [rbind]; [|discriminate].
  destruct (mapM (mapM last_item) array) as [b7|]; cbn [rbind];
    [|discriminate].
  destruct (np_array [b0; b1; b0; b1; b4; b5; b6; b7]) as [slabs|] eqn:E;
    cbn [rbind]; [|discriminate].
  assert (Hslabs : slabs = [b0; b1; b0; b1; b4; b5; b6; b7]).
  { unfold np_array in E. destruct (forallb _ _); [|discriminate E].
    now injection E as <-. }
  subst slabs. intros H. injection H as <-.
  exists b0, b1, b4, b5, b6, b7. repeat split; [exact E|].
  unfold hstack. simpl. now rewrite app_nil_r.
Qed.

(** Border values exist only for an array with a first value, and that
    value is among them. *)
Lemma border_values_nonempty (array : Array3) (borders : list Q) :
  border_values array = Ok borders -> borders <> [].
Proof.
  intros H. destruct (border_values_slabs array borders H)
    as (b0 & b1 & b4 & b5 & b6 & b7 & E0 & _ & E4 & _ & E6 & _ & _ & ->).
  destruct array as [|plane rest]; [discriminate E0|].
  simpl in E0. injection E0 as <-.
  apply mapM_Forall2 in E4. inversion E4 as [|? row0 ? ? Hfirst _]; subst.
  apply mapM_Forall2 in E6. inversion E6 as [|? y ? ? Hplane _]; subst.
  destruct plane as [|row rows]; [discriminate Hfirst|].
  destruct row as [|v row]; [simpl in Hplane; discriminate Hplane|].
  simpl. discriminate.
Qed.

(** Whatever the flag, the value returned is the mean of a non-empty part of
    the border values. *)
Lemma get_borders_mean_is_a_mean (array : Array3) (borders : list Q)
  (filter_otsu : bool) :
  border_values array = Ok borders ->
  exists part,
    part <> [] /\ incl part borders /\
    get_borders_mean array filter_otsu = Ok (mean part).
Proof.
  intros Hb. pose proof (border_values_nonempty array borders Hb) as Hne.
  destruct filter_otsu.
  - rewrite (get_borders_mean_filtered array borders Hb).
    destruct (any (filter (lt (OtsuThreshold borders)) borders)) eqn:E.
    + exists (filter (lt (OtsuThreshold borders)) borders).
      repeat split.
      * intros Hnil. rewrite Hnil in E. discriminate E.
      * intros v Hv. now apply filter_In in Hv.
    + exists borders. repeat split; [assumption|apply incl_refl].
  - rewrite (get_borders_mean_unfiltered array borders Hb).
    exists borders. repeat split; [assumption|apply incl_refl].
Qed.


Lemma concat_length_const {A : Type} (k : nat) (l : list (list A)) :
  Forall (fun r => List.length r = k) l ->
  List.length (List.concat l) = (List.length l * k)%nat.
Proof.
  induction 1 as [|r l Hr _ IH]; simpl; [reflexivity|].
  rewrite length_app, Hr, IH. reflexivity.
Qed.

Lemma Forall2_transfer {A B : Type} (P : A -> Prop) (R : A -> B -> Prop)
  (Q : B -> Prop) (l : list A) (ys : list B) :
  (forall x y, P x -> R x y -> Q y) ->
  Forall P l -> Forall2 R l ys -> Forall Q ys.
Proof.
  intros HQ HP HR. induction HR as [|x y l ys Hxy _ IH]; constructor.
  - apply (HQ x y); [exact (Forall_inv HP)|exact Hxy].
  - apply IH. exact (Forall_inv_tail HP).
Qed.

Lemma first_defined {A : Type} (l : list A) :
  l <> [] -> exists x, first l = Ok x.
Proof. destruct l as [|x l]; [congruence|]. intros _. now exists x. Qed.

Lemma last_item_defined {A : Type} (l : list A) :
  l <> [] -> exists x, last_item l = Ok x.
Proof.
  induction l as [|x l IH]; [congruence|]. intros _.
  destruct l as [|y l]; [now exists x|].
  destruct IH as [z Hz]; [discriminate|]. now exists z.
Qed.

Lemma mapM_defined {A B : Type} (f : A -> Result B) (l : list A) :
  Forall (fun x => exists y, f x = Ok y) l -> exists ys, mapM f l = Ok ys.
Proof.
  induction 1 as [|x l [y Hy] _ [ys Hys]]; simpl.
  - now eexists.
  - rewrite Hy. simpl. rewrite Hys. simpl. now eexists.
Qed.

Lemma length_positive {A : Type} (n : nat) (l : list A) :
  List.length l = n -> (0 < n)%nat -> l <> [].
Proof. intros H Hn ->. simpl in H. lia. Qed.

Lemma rectangle_shape (n m : nat) (slab : Array2) :
  rectangle n m slab -> (0 < n)%nat -> shape2 slab = (n, m).
Proof.
  intros [Hlen Hrows] Hn. unfold shape2. rewrite Hlen. f_equal.
  destruct slab as [|row rows]; [simpl in Hlen; lia|].
  exact (Forall_inv Hrows).
Qed.

Lemma rectangle_flatten (n m : nat) (slab : Array2) :
  rectangle n m slab -> List.length (flatten slab) = (n * m)%nat.
Proof.
  intros [Hlen Hrows]. unfold flatten.
  now rewrite (concat_length_const m slab Hrows), Hlen.
Qed.

(** The slices of a rectangular array without an empty axis: the faces of
    the first axis are [n1 x n2], those of the second [n0 x n2], those of
    the third [n0 x n1]. *)
Lemma border_slices_shapes (n0 n1 n2 : nat) (array : Array3) :
  has_shape n0 n1 n2 array ->
  (0 < n0)%nat -> (0 < n1)%nat -> (0 < n2)%nat ->
  exists b0 b1 b4 b5 b6 b7,
    border_slices array = Ok [b0; b1; b0; b1; b4; b5; b6; b7] /\
    rectangle n1 n2 b0 /\ rectangle n1 n2 b1 /\
    rectangle n0 n2 b4 /\ rectangle n0 n2 b5 /\
    rectangle n0 n1 b6 /\ rectangle n0 n1 b7.
Proof.
  intros [Hlen Hall] H0 H1 H2.
  pose proof (length_positive n0 array Hlen H0) as Hne.
  assert (Hplanes : Forall (fun plane => plane <> []) array).
  { eapply Forall_impl; [|exact Hall]. intros plane [Hp _].
    exact (length_positive n1 plane Hp H1). }
  assert (Hrows : Forall (fun plane => Forall (fun row => row <> []) plane)
                    array).
  { eapply Forall_impl; [|exact Hall]. intros plane [_ Hr].
    eapply Forall_impl; [|exact Hr]. intros row Hrow.
    exact (length_positive n2 row Hrow H2). }
  destruct (first_defined array Hne) as [b0 E0].
  destruct (last_item_defined array Hne) as [b1 E1].
  destruct (mapM_defined first array) as [b4 E4].
  { eapply Forall_impl; [|exact Hplanes]. intros plane. apply first_defined. }
  destruct (mapM_defined last_item array) as [b5 E5].
  { eapply Forall_impl; [|exact Hplanes]. intros plane.
    apply last_item_defined. }
  destruct (mapM_defined (mapM first) array) as [b6 E6].
  { eapply Forall_impl; [|exact Hrows]. intros plane Hp.
    apply mapM_defined. eapply Forall_impl; [|exact Hp].
    intros row. apply first_defined. }
  destruct (mapM_defined (mapM last_item) array) as [b7 E7].
  { eapply Forall_impl; [|exact Hrows]. intros plane Hp.
    apply mapM_defined. eapply Forall_impl; [|exact Hp].
    intros row. apply last_item_defined. }
  exists b0, b1, b4, b5, b6, b7.
  split.
  { unfold border_slices. rewrite E0, E1. cbn [rbind].
    rewrite E4, E5. cbn [rbind]. rewrite E6, E7. reflexivity. }
  rewrite Forall_forall in Hall.
  assert (Hface : forall f ys,
            (forall (r : Array2) (x : list Q), f r = Ok x -> In x r) ->
            mapM f array = Ok ys -> rectangle n0 n2 ys).
  { intros f ys Hf E. apply mapM_Forall2 in E. split.
    - rewrite <- Hlen. symmetry. exact (Forall2_length E).
    - apply (Forall2_transfer
               (fun plane => In plane array /\
                             Forall (fun row => List.length row = n2) plane)
               (fun x y => f x = Ok y)
               (fun row => List.length row = n2) array ys); [| |exact E].
      + intros plane row [_ Hr] Hrow.
        rewrite Forall_forall in Hr. apply Hr. now apply Hf.
      + apply Forall_forall. intros plane Hin. split; [exact Hin|].
        now destruct (Hall plane Hin). }
  assert (Hside : forall f ys,
            mapM (mapM f) array = Ok ys -> rectangle n0 n1 ys).
  { intros f ys E. apply mapM_Forall2 in E. split.
    - rewrite <- Hlen. symmetry. exact (Forall2_length E).
    - apply (Forall2_transfer
               (fun plane => List.length plane = n1)
               (fun x y => mapM f x = Ok y)
               (fun col => List.length col = n1) array ys); [| |exact E].
      + intros plane col Hp Hcol. apply mapM_Forall2 in Hcol.
        now rewrite <- (Forall2_length Hcol).
      + apply Forall_forall. intros plane Hin. now destruct (Hall plane Hin). }
  repeat split.
  - now destruct (Hall b0 (first_in array b0 E0)).
  - now destruct (Hall b0 (first_in array b0 E0)).
  - now destruct (Hall b1 (last_item_in array b1 E1)).
  - now destruct (Hall b1 (last_item_in array b1 E1)).
  - exact (proj1 (Hface first b4 (@first_in (list Q)) E4)).
  - exact (proj2 (Hface first b4 (@first_in (list Q)) E4)).
  - exact (proj1 (Hface last_item b5 (@last_item_in (list Q)) E5)).
  - exact (proj2 (Hface last_item b5 (@last_item_in (list Q)) E5)).
  - exact (proj1 (Hside first b6 E6)).
  - exact (proj2 (Hside first b6 E6)).
  - exact (proj1 (Hside last_item b7 E7)).
  - exact (proj2 (Hside last_item b7 E7)).
Qed.

(** A cube without an empty axis has border values. *)
Lemma border_values_defined (n : nat) (array : Array3) :
  has_shape n n n array -> (0 < n)%nat ->
  exists borders,
    border_values array = Ok borders /\
    List.length borders = (8 * n * n)%nat.
Proof.
  intros Hshape Hn.
  destruct (border_slices_shapes n n n array Hshape Hn Hn Hn)
    as (b0 & b1 & b4 & b5 & b6 & b7 & E & R0 & R1 & R4 & R5 & R6 & R7).
  unfold border_values, border_slabs. rewrite E. cbn [rbind].
  unfold np_array. cbn [hd forallb].
  rewrite (rectangle_shape n n b0 R0 Hn), (rectangle_shape n n b1 R1 Hn),
    (rectangle_shape n n b4 R4 Hn), (rectangle_shape n n b5 R5 Hn),
    (rectangle_shape n n b6 R6 Hn), (rectangle_shape n n b7 R7 Hn).
  unfold shape2_eqb. cbn [fst snd]. rewrite Nat.eqb_refl. cbn [andb rbind].
  eexists. split; [reflexivity|].
  unfold hstack. cbn [map List.concat]. rewrite !length_app.
  rewrite (rectangle_flatten n n b0 R0), (rectangle_flatten n n b1 R1),
    (rectangle_flatten n n b4 R4), (rectangle_flatten n n b5 R5),
    (rectangle_flatten n n b6 R6), (rectangle_flatten n n b7 R7).
  simpl. lia.
Qed.

(** X9: a cube of [n x n x n] values, [n] positive, has [8 n n] border
    values, the faces of the first axis taken twice and those of the other
    two axes once; on a rectangular array without an empty axis whose three
    sizes are not equal the slices differ in shape and the gathering raises
    the [ValueError] of [np.array]. *)
Theorem border_values_count (n0 n1 n2 : nat) (array : Array3) :
  has_shape n0 n1 n2 array ->
  (0 < n0)%nat -> (0 < n1)%nat -> (0 < n2)%nat ->
  (n0 = n1 /\ n1 = n2 ->
   exists borders,
     border_values array = Ok borders /\
     List.length borders = (8 * n0 * n0)%nat) /\
  (~ (n0 = n1 /\ n1 = n2) ->
   border_values array
   = Err (ValueError "the requested array has an inhomogeneous shape")).
Proof.
  intros Hshape H0 H1 H2. split.
  - intros [<- <-]. now apply border_values_defined.
  - intros Hne.
    destruct (border_slices_shapes n0 n1 n2 array Hshape H0 H1 H2)
      as (b0 & b1 & b4 & b5 & b6 & b7 & E & R0 & R1 & R4 & R5 & R6 & R7).
    unfold border_values, border_slabs. rewrite E. cbn [rbind].
    unfold np_array. cbn [hd forallb].
    rewrite (rectangle_shape n1 n2 b0 R0 H1), (rectangle_shape n1 n2 b1 R1 H1),
      (rectangle_shape n0 n2 b4 R4 H0), (rectangle_shape n0 n2 b5 R5 H0),
      (rectangle_shape n0 n1 b6 R6 H0), (rectangle_shape n0 n1 b7 R7 H0).
    unfold shape2_eqb. cbn [fst snd]. rewrite !Nat.eqb_refl. cbn [andb].
    destruct (Nat.eqb n1 n0) eqn:E10; cbn [andb rbind]; [|reflexivity].
    destruct (Nat.eqb n2 n1) eqn:E21; cbn [andb rbind]; [|reflexivity].
    apply Nat.eqb_eq in E10, E21. exfalso. apply Hne. now subst.
Qed.

End MoreBorderFacts.


(** A [3 x 3 x 3] array has [72] border values; a [2 x 3 x 3] array has
    none, its slices being [3 x 3] and [2 x 3]. *)
Lemma border_values_count_witness :
  (exists borders,
     border_values bright_first_slice = Ok borders /\
     List.length borders = 72%nat) /\
  border_values [slab_of 1; slab_of 1]
  = Err (ValueError "the requested array has an inhomogeneous shape").
Proof.
  split.
  - destruct (border_values_count 3 3 3 bright_first_slice) as [Hcube _].
    + split; [reflexivity|]. repeat constructor.
    + lia.
    + lia.
    + lia.
    + apply Hcube. split; reflexivity.
  - destruct (border_values_count 2 3 3 [slab_of 1; slab_of 1])
      as [_ Hother].
    + split; [reflexivity|]. repeat constructor.
    + lia.
    + lia.
    + lia.
    + apply Hother. intros [H _]. discriminate H.
Defined.

(** ** More on the transforms *)

Section MoreGeometryFacts.

Local Open Scope R_scope.

Lemma mat_mul_vec (a b : Sitk.Matrix) (p : Sitk.Point) :
  Sitk.mat_vec (Sitk.mat_mul a b) p = Sitk.mat_vec a (Sitk.mat_vec b p).
Proof.
  destruct a as [[[[a00 a01] a02] [[a10 a11] a12]] [[a20 a21] a22]].
  destruct b as [[[[b00 b01] b02] [[b10 b11] b12]] [[b20 b21] b22]].
  destruct p as [[x y] z].
  cbn. apply point_ext; ring.
Qed.

Lemma unit_circle (a : R) : sin a * sin a + cos a * cos a = 1.
Proof. exact (sin2_cos2 a). Qed.

Lemma RotationX_norm (a : R) (p : Sitk.Point) :
  norm2 (Sitk.mat_vec (Sitk.RotationX a) p) = norm2 p.
Proof.
  destruct p as [[x y] z]. cbn.
  replace (_ + _ + _) with
    (x * x + (sin a * sin a + cos a * cos a) * (y * y + z * z)) by ring.
  rewrite unit_circle. ring.
Qed.

Lemma RotationY_norm (a : R) (p : Sitk.Point) :
  norm2 (Sitk.mat_vec (Sitk.RotationY a) p) = norm2 p.
Proof.
  destruct p as [[x y] z]. cbn.
  replace (_ + _ + _) with
    (y * y + (sin a * sin a + cos a * cos a) * (x * x + z * z)) by ring.
  rewrite unit_circle. ring.
Qed.

Lemma RotationZ_norm (a : R) (p : Sitk.Point) :
  norm2 (Sitk.mat_vec (Sitk.RotationZ a) p) = norm2 p.
Proof.
  destruct p as [[x y] z]. cbn.
  replace (_ + _ + _) with
    (z * z + (sin a * sin a + cos a * cos a) * (x * x + y * y)) by ring.
  rewrite unit_circle. ring.
Qed.

Lemma about_origin (p : Sitk.Point) :
  Sitk.psub p Sitk.origin = p /\ Sitk.padd p Sitk.origin = p.
Proof.
  destruct p as [[x y] z]. unfold Sitk.psub, Sitk.padd, Sitk.origin.
  split; apply point_ext; ring.
Qed.

(** The point a rotation built by [get_rotation_transform] sends [p] to:
    the matrix of the three angles applied to [p], nothing added. *)
Lemma rotation_transform_point (d1 d2 d3 : Q) (p : Sitk.Point) :
  Sitk.TransformPoint1
    (Sitk.TEuler3D
       (Sitk.SetRotation (radians d1) (radians d2) (radians d3)
          Sitk.new_Euler3DTransform)) p
  = Sitk.mat_vec (Sitk.RotationZ (radians d3))
      (Sitk.mat_vec (Sitk.RotationX (radians d1))
         (Sitk.mat_vec (Sitk.RotationY (radians d2)) p)).
Proof.
  unfold Sitk.TransformPoint1, Sitk.GetMatrix. cbn [Sitk.SetRotation
    Sitk.new_Euler3DTransform Sitk.ComputeZYX Sitk.Center Sitk.Translation
    Sitk.AngleX Sitk.AngleY Sitk.AngleZ].
  rewrite (proj1 (about_origin p)).
  rewrite !(proj2 (about_origin _)).
  now rewrite !mat_mul_vec.
Qed.

(** X10: whatever the three angles, the rotation [get_rotation_transform]
    builds keeps the distance of every point to the physical origin. *)
Theorem rotation_keeps_distance_to_origin (d1 d2 d3 : Q) :
  exists e,
    get_rotation_transform [d1; d2; d3] = Ok e /\
    forall p, norm2 (Sitk.TransformPoint1 (Sitk.TEuler3D e) p) = norm2 p.
Proof.
  eexists. split; [reflexivity|]. intros p.
  rewrite rotation_transform_point.
  now rewrite RotationZ_norm, RotationX_norm, RotationY_norm.
Qed.

(** X11: the composite of [apply_affine_transform] rotates first and scales
    afterwards: for positive scaling parameters it sends a point to its
    image under the rotation with coordinate i divided by [si]. *)
Theorem composite_rotates_then_scales (s1 s2 s3 d1 d2 d3 : Q) :
  (0 < s1)%Q -> (0 < s2)%Q -> (0 < s3)%Q ->
  exists t e,
    affine_composite [s1; s2; s3] [d1; d2; d3] = Ok t /\
    get_rotation_transform [d1; d2; d3] = Ok e /\
    forall p,
      Sitk.TransformPoint t p =
        let '(x, y, z) := Sitk.TransformPoint1 (Sitk.TEuler3D e) p in
        (x / Q2R s1, y / Q2R s2, z / Q2R s3).
Proof.
  intros H1 H2 H3. eexists. eexists.
  split; [reflexivity|]. split; [reflexivity|]. intros p.
  cbn [Sitk.TransformPoint Sitk.AddTransform Sitk.new_Composite app fold_right].
  destruct (Sitk.TransformPoint1 _ p) as [[x y] z].
  cbn. rewrite !Q2R_reciprocal by assumption.
  apply point_ext; unfold Rdiv; ring.
Qed.

(** X12: with one positive scale [s] on the three axes and any rotation, the
    composite divides the distance of every point to the physical origin by
    [s]: the squared distance by [s * s]. *)
Theorem isotropic_composite_divides_distance (s d1 d2 d3 : Q) :
  (0 < s)%Q ->
  exists t,
    affine_composite [s; s; s] [d1; d2; d3] = Ok t /\
    forall p, norm2 (Sitk.TransformPoint t p) = norm2 p / (Q2R s * Q2R s).
Proof.
  intros Hs. eexists. split; [reflexivity|]. intros p.
  cbn [Sitk.TransformPoint Sitk.AddTransform Sitk.new_Composite app fold_right].
  assert (Hq : norm2
                 (Sitk.TransformPoint1
                    (Sitk.TEuler3D
                       (Sitk.SetRotation (radians d1) (radians d2) (radians d3)
                          Sitk.new_Euler3DTransform)) p) = norm2 p).
  { rewrite rotation_transform_point.
    now rewrite RotationZ_norm, RotationX_norm, RotationY_norm. }
  rewrite <- Hq.
  destruct (Sitk.TransformPoint1 (Sitk.TEuler3D _) p) as [[x y] z].
  cbn. rewrite !Q2R_reciprocal by assumption.
  assert (Hnz : Q2R s <> 0).
  { intros E. apply Qlt_Rlt in Hs. rewrite RMicromega.Q2R_0 in Hs. lra. }
  field. exact Hnz.
Qed.

(** X13: for scaling parameters none of which is zero, whatever the
    angles, the composite is anchored at the physical origin: it leaves the
    origin in place and commutes with the multiplication of the coordinates
    by a factor. *)
Theorem composite_is_linear_about_origin (scaling rotation : list Q)
  (t : Sitk.CompositeTransform) :
  Forall (fun s => ~ (s == 0)%Q) scaling ->
  affine_composite scaling rotation = Ok t ->
  Sitk.TransformPoint t Sitk.origin = Sitk.origin /\
  forall k x y z,
    Sitk.TransformPoint t (k * x, k * y, k * z) =
      let '(a, b, c) := Sitk.TransformPoint t (x, y, z) in
      (k * a, k * b, k * c).
Proof.
  intros _.
  unfold affine_composite, get_scaling_transform, get_rotation_transform.
  destruct (map (fun s => (1 / s)%Q) scaling) as [|a0 [|a1 [|a2 rest]]];
    simpl; try discriminate.
  destruct (map radians rotation) as [|r0 [|r1 [|r2 [|]]]];
    simpl; try discriminate.
  intros H. injection H as <-. split.
  - cbn. unfold Sitk.origin. apply point_ext; ring.
  - intros k x y z. cbn. apply point_ext; ring.
Qed.

End MoreGeometryFacts.

Lemma composite_rotates_then_scales_witness :
  exists t e,
    affine_composite [2; 2; 2]%Q [0; 0; 180]%Q = Ok t /\
    get_rotation_transform [0; 0; 180]%Q = Ok e /\
    forall p,
      Sitk.TransformPoint t p =
        let '(x, y, z) := Sitk.TransformPoint1 (Sitk.TEuler3D e) p in
        (x / Q2R 2, y / Q2R 2, z / Q2R 2)%R.
Proof.
  apply (composite_rotates_then_scales 2 2 2 0 0 180); reflexivity.
Defined.

Lemma isotropic_composite_divides_distance_witness :
  exists t,
    affine_composite [2; 2; 2]%Q [0; 0; 180]%Q = Ok t /\
    forall p,
      norm2 (Sitk.TransformPoint t p) = (norm2 p / (Q2R 2 * Q2R 2))%R.
Proof.
  apply (isotropic_composite_divides_distance 2 0 0 180). reflexivity.
Defined.

Lemma composite_is_linear_about_origin_witness :
  exists t,
    affine_composite [2; 2; 2]%Q [0; 0; 180]%Q = Ok t /\
    Sitk.TransformPoint t Sitk.origin = Sitk.origin.
Proof.
  eexists. split; [reflexivity|].
  apply (composite_is_linear_about_origin [2; 2; 2]%Q [0; 0; 180]%Q).
  - repeat constructor; discriminate.
  - reflexivity.
Defined.

(** ** Construction and fill value *)

Section MoreFillFacts.

Context {otsu : OtsuFilter}.
Local Open Scope string_scope.

Lemma parse_default_value_ok (v w : PadValue) :
  parse_default_value v = Ok w -> w = v /\ accepted_pad_value v.
Proof.
  destruct v as [t|q]; simpl.
  - destruct (String.eqb t "minimum") eqn:E1; simpl.
    + intros H. injection H as <-. apply String.eqb_eq in E1. auto.
    + destruct (String.eqb t "otsu") eqn:E2; simpl.
      * intros H. injection H as <-. apply String.eqb_eq in E2. auto.
      * destruct (String.eqb t "mean") eqn:E3; simpl; [|discriminate].
        intros H. injection H as <-. apply String.eqb_eq in E3. auto.
  - intros H. injection H as <-. auto.
Qed.

Lemma parse_default_value_rejects (v : PadValue) :
  ~ accepted_pad_value v -> exists e, parse_default_value v = Err e.
Proof.
  destruct v as [t|q]; simpl; [|tauto]. intros H.
  destruct (String.eqb t "minimum") eqn:E1;
    [apply String.eqb_eq in E1; tauto|].
  destruct (String.eqb t "otsu") eqn:E2;
    [apply String.eqb_eq in E2; tauto|].
  destruct (String.eqb t "mean") eqn:E3;
    [apply String.eqb_eq in E3; tauto|].
  simpl. now eexists.
Qed.

(** X14: the constructor refuses every [default_pad_value] that is neither a
    number nor one of ['minimum'], ['otsu'], ['mean']; when it returns, the
    object holds such a value, and holds [scales], [isotropic],
    [default_pad_value], [p] and [seed] as they were given. *)
Theorem init_checks_default_pad_value (scale_range : Q * Q)
  (degrees_arg : RangeArg) (iso : bool) (pad : PadValue)
  (image_interpolation : Interpolation) (probability : Q)
  (seed_arg : option Z) :
  (~ accepted_pad_value pad ->
   exists e,
     __init__ scale_range degrees_arg iso pad image_interpolation
       probability seed_arg = Err e) /\
  (forall self,
     __init__ scale_range degrees_arg iso pad image_interpolation
       probability seed_arg = Ok self ->
     accepted_pad_value (default_pad_value self) /\
     default_pad_value self = pad /\
     scales self = scale_range /\
     isotropic self = iso /\
     p self = probability /\ seed self = seed_arg).
Proof.
  unfold __init__. split.
  - intros H. destruct (parse_degrees degrees_arg) as [d|e]; simpl;
      [|now eexists].
    destruct (parse_default_value_rejects pad H) as [e ->]. simpl.
    now eexists.
  - intros self. destruct (parse_degrees degrees_arg) as [d|e]; simpl;
      [|discriminate].
    destruct (parse_default_value pad) as [w|e] eqn:E; simpl; [|discriminate].
    destruct (parse_default_value_ok pad w E) as [-> Hacc].
    intros H. injection H as <-. simpl.
    repeat split; try reflexivity. exact Hacc.
Qed.

Lemma fold_min_spec (l : list Q) (a : Q) :
  (fold_left Qmin l a = a \/ In (fold_left Qmin l a) l) /\
  (fold_left Qmin l a <= a)%Q /\
  (forall v, In v l -> (fold_left Qmin l a <= v)%Q).
Proof.
  revert a. induction l as [|b l IH]; intros a; simpl.
  - split; [now left|]. split; [apply Qle_refl|intros v []].
  - destruct (IH (Qmin a b)) as (Hmem & Hle & Hall).
    split; [|split].
    + destruct Hmem as [Hm|Hm]; [|now right; right].
      rewrite Hm. unfold Qmin, GenericMinMax.gmin.
      destruct (a ?= b)%Q; auto.
    + eapply Qle_trans; [exact Hle|apply Q.le_min_l].
    + intros v [<-|Hv]; [|now apply Hall].
      eapply Qle_trans; [exact Hle|apply Q.le_min_r].
Qed.

(** X15: with [default_pad_value='minimum'] the fill value is a value of the
    tensor and no value of the tensor is smaller; it exists as soon as the
    tensor has a value. *)
Theorem minimum_fill_is_least_value (self : RandomAffine)
  (tensor : Torch.Tensor) (image : Sitk.Image) :
  default_pad_value self = PadText "minimum" ->
  Torch.values tensor <> [] ->
  exists m,
    default_value self tensor image = Ok m /\
    In m (Torch.values tensor) /\
    forall v, In v (Torch.values tensor) -> (m <= v)%Q.
Proof.
  intros Hpad Hne. unfold default_value, Torch.min. rewrite Hpad. simpl.
  destruct (Torch.values tensor) as [|a l]; [congruence|].
  destruct (fold_min_spec l a) as (Hmem & Hle & Hall).
  eexists. split; [reflexivity|]. split.
  - destruct Hmem as [->|Hm]; [now left|now right].
  - intros v [<-|Hv]; [exact Hle|now apply Hall].
Qed.

Lemma default_value_defined (self : RandomAffine) (tensor : Torch.Tensor)
  (image : Sitk.Image) :
  accepted_pad_value (default_pad_value self) ->
  Torch.values tensor <> [] ->
  (default_pad_value self = PadText "mean" \/
   default_pad_value self = PadText "otsu" ->
   exists n, (0 < n)%nat /\ has_shape n n n (Sitk.ArrayView image)) ->
  exists v, default_value self tensor image = Ok v.
Proof.
  intros Hacc Hvalues Hcube. unfold default_value.
  destruct (default_pad_value self) as [t|q]; [|now eexists].
  simpl in Hacc. destruct Hacc as [-> | [-> | ->]]; simpl.
  - unfold Torch.min. destruct (Torch.values tensor); [congruence|now eexists].
  - destruct Hcube as (n & Hn & Hshape); [now right|].
    destruct (border_values_defined n _ Hshape Hn) as (borders & Hb & _).
    destruct (get_borders_mean_is_a_mean _ borders true Hb) as (l & _ & _ & ->).
    now eexists.
  - destruct Hcube as (n & Hn & Hshape); [now left|].
    destruct (border_values_defined n _ Hshape Hn) as (borders & Hb & _).
    destruct (get_borders_mean_is_a_mean _ borders false Hb) as (l & _ & _ & ->).
    now eexists.
Qed.

(** X16: for every value the constructor lets through, the fill value
    exists on a tensor that has a value, provided the image is a cube
    without an empty axis when the policy is ['mean'] or ['otsu'] (the two
    that gather the border): a number is taken as it is, the three policies
    find a value, and the conversion of a string to a float is never
    reached. *)
Theorem fill_value_defined (self : RandomAffine) (tensor : Torch.Tensor)
  (image : Sitk.Image) :
  accepted_pad_value (default_pad_value self) ->
  Torch.values tensor <> [] ->
  (default_pad_value self = PadText "mean" \/
   default_pad_value self = PadText "otsu" ->
   exists n, (0 < n)%nat /\ has_shape n n n (Sitk.ArrayView image)) ->
  exists v,
    default_value self tensor image = Ok v /\
    default_value self tensor image
      <> Err (ValueError "could not convert string to float").
Proof.
  intros Hacc Hvalues Hcube.
  destruct (default_value_defined self tensor image Hacc Hvalues Hcube)
    as [v Hv].
  exists v. split; [exact Hv|]. rewrite Hv. discriminate.
Qed.

End MoreFillFacts.

(** The string ['median'] is refused; the default arguments are accepted
    and the object holds ['otsu']. *)
Lemma init_checks_default_pad_value_witness :
  (exists e,
     __init__ (9 # 10, 11 # 10) (Single 10) false (PadText "median") LINEAR
       1 None = Err e) /\
  accepted_pad_value (default_pad_value default_transform).
Proof.
  split.
  - apply (proj1 (init_checks_default_pad_value (9 # 10, 11 # 10) (Single 10)
                    false (PadText "median") LINEAR 1 None)).
    simpl. intros [H | [H | H]]; discriminate H.
  - apply (proj2 (init_checks_default_pad_value (9 # 10, 11 # 10) (Single 10)
                    false (PadText "otsu") LINEAR 1 None) default_transform).
    reflexivity.
Defined.

Lemma minimum_fill_is_least_value_witness :
  exists m,
    @default_value (constant_otsu (1 # 2)) minimum_transform
      (tensor_of Torch.float32 bright_first_slice) bright_image = Ok m /\
    In m (Torch.values (tensor_of Torch.float32 bright_first_slice)) /\
    forall v,
      In v (Torch.values (tensor_of Torch.float32 bright_first_slice)) ->
      (m <= v)%Q.
Proof.
  apply (@minimum_fill_is_least_value (constant_otsu (1 # 2)) minimum_transform
           (tensor_of Torch.float32 bright_first_slice) bright_image).
  - reflexivity.
  - simpl. discriminate.
Defined.

Lemma fill_value_defined_witness :
  exists v,
    @default_value (constant_otsu (1 # 2)) default_transform
      (tensor_of Torch.float32 bright_first_slice) bright_image = Ok v /\
    @default_value (constant_otsu (1 # 2)) default_transform
      (tensor_of Torch.float32 bright_first_slice) bright_image
      <> Err (ValueError "could not convert string to float").
Proof.
  apply (@fill_value_defined (constant_otsu (1 # 2)) default_transform
           (tensor_of Torch.float32 bright_first_slice) bright_image).
  - simpl. right. now left.
  - simpl. discriminate.
  - intros _. exists 3%nat. split; [lia|].
    split; [reflexivity|]. repeat constructor.
Defined.

(** ** More on applying the transform to a subject *)

Section MoreApplyFacts.

Context {rt : Torch.Runtime} {rs : Resampling} {otsu : OtsuFilter}.
Local Open Scope string_scope.

Lemma dict_get_set_same (key : string) (e : Entry) (d : Subject) :
  dict_get key (dict_set key e d) = Some e.
Proof.
  induction d as [|[k old] d IH]; simpl.
  - now rewrite String.eqb_refl.
  - destruct (String.eqb k key) eqn:E; simpl; rewrite E; [reflexivity|exact IH].
Qed.

Lemma dict_get_set_other (key k : string) (e : Entry) (d : Subject) :
  k <> key -> dict_get k (dict_set key e d) = dict_get k d.
Proof.
  intros Hk. induction d as [|[k' old] d IH]; simpl.
  - destruct (String.eqb key k) eqn:E; [|reflexivity].
    apply String.eqb_eq in E. congruence.
  - destruct (String.eqb k' key) eqn:E; simpl.
    + destruct (String.eqb k' k) eqn:E'; [|reflexivity].
      apply String.eqb_eq in E, E'. congruence.
    + now rewrite IH.
Qed.

Lemma image_eta (img : ImageDict) :
  {| DATA := DATA img; AFFINE := AFFINE img; TYPE := TYPE img |} = img.
Proof. now destruct img. Qed.

(** What the loop does to an entry: the name stays, an image record keeps
    its affine map and its type, anything else stays as it is. *)
Lemma transform_images_pointwise (self : RandomAffine) (sp rp : list Q)
  (items out : Subject) (r : Result unit) :
  transform_images self sp rp items = (r, out) ->
  Forall2 (fun a b => fst a = fst b /\ entry_kept (snd a) (snd b)) items out.
Proof.
  assert (Hsame : forall l : Subject,
    Forall2 (fun a b => fst a = fst b /\ entry_kept (snd a) (snd b)) l l).
  { induction l as [|[k e] l IHl]; constructor; [|exact IHl].
    split; [reflexivity|]. destruct e as [img| |]; simpl; try reflexivity.
    exists (DATA img). now rewrite image_eta. }
  revert out r. induction items as [|[k e] rest IH]; intros out r H.
  - simpl in H. injection H as <- <-. constructor.
  - simpl in H. destruct e as [img|values|text]; simpl in H.
    + destruct (apply_affine_transform self (DATA img) (AFFINE img) sp rp _)
        as [tensor|ex].
      * destruct (transform_images self sp rp rest) as [r' rest'].
        injection H as <- <-. constructor; [|now apply (IH rest' r')].
        split; [reflexivity|]. simpl. now exists tensor.
      * injection H as <- <-. apply Hsame.
    + destruct (transform_images self sp rp rest) as [r' rest'].
      injection H as <- <-. constructor; [|now apply (IH rest' r')].
      now split.
    + destruct (transform_images self sp rp rest) as [r' rest'].
      injection H as <- <-. constructor; [|now apply (IH rest' r')].
      now split.
Qed.

Lemma dict_get_pointwise (R : Entry -> Entry -> Prop) (items out : Subject)
  (key : string) (e : Entry) :
  Forall2 (fun a b => fst a = fst b /\ R (snd a) (snd b)) items out ->
  dict_get key items = Some e ->
  exists e', dict_get key out = Some e' /\ R e e'.
Proof.
  induction 1 as [|[k a] [k' b] items out [Hk HR] _ IH]; simpl;
    [discriminate|].
  simpl in Hk, HR. subst k'.
  destruct (String.eqb k key).
  - intros H. injection H as <-. now exists b.
  - exact IH.
Qed.

(** The outcome of the loop, whatever it is, as [apply_transform] returns
    it. *)
Lemma apply_transform_sampled (self : RandomAffine) (sample : Subject)
  (g g' : Torch.Generator) (sp rp : list Q) :
  check_consistent_shape sample = Ok tt ->
  get_params (scales self) (degrees self) (isotropic self) g
    = (Ok (sp, rp), g') ->
  apply_transform self sample g =
    (fst (transform_images self sp rp
            (dict_set "random_rotation" (EFloats rp)
               (dict_set "random_scaling" (EFloats sp) sample))),
     snd (transform_images self sp rp
            (dict_set "random_rotation" (EFloats rp)
               (dict_set "random_scaling" (EFloats sp) sample))),
     g').
Proof.
  intros Hc Hp. unfold apply_transform. rewrite Hc, Hp.
  now destruct (transform_images self sp rp _).
Qed.

(** X17: once the shapes agree and the parameters are sampled, the subject
    holds them under ['random_scaling'] and ['random_rotation'] when
    [apply_transform] ends, whether it completes or a volume makes it
    raise; the generator is where the sampling left it. *)
Theorem sampled_parameters_are_recorded (self : RandomAffine)
  (sample : Subject) (g g' : Torch.Generator) (sp rp : list Q) :
  check_consistent_shape sample = Ok tt ->
  get_params (scales self) (degrees self) (isotropic self) g
    = (Ok (sp, rp), g') ->
  exists r out,
    apply_transform self sample g = (r, out, g') /\
    dict_get "random_scaling" out = Some (EFloats sp) /\
    dict_get "random_rotation" out = Some (EFloats rp).
Proof.
  intros Hc Hp. rewrite (apply_transform_sampled self sample g g' sp rp Hc Hp).
  destruct (transform_images self sp rp _) as [r out] eqn:E.
  exists r, out. split; [reflexivity|].
  pose proof (transform_images_pointwise _ _ _ _ _ _ E) as HF.
  split.
  - destruct (dict_get_pointwise entry_kept _ _ "random_scaling" (EFloats sp) HF)
      as (e' & -> & He').
    + rewrite dict_get_set_other by discriminate. apply dict_get_set_same.
    + simpl in He'. now rewrite He'.
  - destruct (dict_get_pointwise entry_kept _ _ "random_rotation" (EFloats rp) HF)
      as (e' & -> & He').
    + apply dict_get_set_same.
    + simpl in He'. now rewrite He'.
Qed.

(** X18: however [apply_transform] ends, no entry of the subject is lost or
    renamed: under every name other than the two parameter names, metadata
    is found unchanged and an image record is found with its affine map and
    its type unchanged. *)
Theorem entries_keep_name_affine_and_type (self : RandomAffine)
  (sample out : Subject) (g g' : Torch.Generator) (r : Result unit)
  (key : string) (e : Entry) :
  apply_transform self sample g = (r, out, g') ->
  dict_get key sample = Some e ->
  key <> "random_scaling" -> key <> "random_rotation" ->
  match e with
  | EImage img =>
      exists tensor,
        dict_get key out =
          Some (EImage {| DATA := tensor; AFFINE := AFFINE img;
                          TYPE := TYPE img |})
  | _ => dict_get key out = Some e
  end.
Proof.
  intros H Hget Hs Hr.
  assert (Hsame : match e with
                  | EImage img =>
                      exists tensor,
                        dict_get key sample =
                          Some (EImage {| DATA := tensor; AFFINE := AFFINE img;
                                          TYPE := TYPE img |})
                  | _ => dict_get key sample = Some e
                  end).
  { destruct e as [img| |]; try exact Hget.
    exists (DATA img). now rewrite image_eta. }
  unfold apply_transform in H.
  destruct (check_consistent_shape sample);
    [|injection H as _ <- _; exact Hsame].
  destruct (get_params _ _ _ g) as [[[sp rp]|ex] g1];
    [|injection H as _ <- _; exact Hsame].
  destruct (transform_images self sp rp _) as [r' out'] eqn:E.
  injection H as _ <- _.
  pose proof (transform_images_pointwise _ _ _ _ _ _ E) as HF.
  destruct (dict_get_pointwise entry_kept _ _ key e HF) as (e' & Hout & He').
  - now rewrite !dict_get_set_other by assumption.
  - destruct e as [img| |]; simpl in He'.
    + destruct He' as [tensor ->]. now exists tensor.
    + now rewrite <- He'.
    + now rewrite <- He'.
Qed.

(** X19: the loop has no rollback.  When the volumes before an image record
    are resampled and [apply_affine_transform] raises on that record, the
    error is the outcome, the volumes before it stay resampled, and the
    record and everything after it are as they were. *)
Theorem failing_volume_stops_the_loop (self : RandomAffine) (sp rp : list Q)
  (before before' after : Subject) (key : string) (img : ImageDict)
  (e : Exception) :
  transform_images self sp rp before = (Ok tt, before') ->
  apply_affine_transform self (DATA img) (AFFINE img) sp rp
    (if ImageType_eqb (TYPE img) LABEL then NEAREST else interpolation self)
    = Err e ->
  transform_images self sp rp (before ++ (key, EImage img) :: after)%list
    = (Err e, (before' ++ (key, EImage img) :: after)%list).
Proof.
  revert before'. induction before as [|[k a] rest IH]; intros before' H Herr.
  - simpl in H. injection H as <-. simpl. now rewrite Herr.
  - simpl in H. simpl app. simpl transform_images.
    destruct a as [image|values|text]; simpl in H |- *.
    + destruct (apply_affine_transform self (DATA image) (AFFINE image) sp rp _)
        as [tensor|ex]; [|discriminate H].
      destruct (transform_images self sp rp rest) as [r rest'] eqn:Er.
      injection H as -> <-. now rewrite (IH rest' eq_refl Herr).
    + destruct (transform_images self sp rp rest) as [r rest'] eqn:Er.
      injection H as -> <-. now rewrite (IH rest' eq_refl Herr).
    + destruct (transform_images self sp rp rest) as [r rest'] eqn:Er.
      injection H as -> <-. now rewrite (IH rest' eq_refl Herr).
Qed.

(** X20: [apply_affine_transform] raises [AssertionError] on a tensor that
    does not have exactly one channel, before it looks at the parameters;
    when it returns, the tensor given had one channel and so has the tensor
    returned. *)
Theorem one_channel_in_one_channel_out (self : RandomAffine)
  (tensor : Torch.Tensor) (affine : Affine) (sp rp : list Q)
  (i : Interpolation) :
  (List.length (Torch.channels tensor) <> 1%nat ->
   apply_affine_transform self tensor affine sp rp i = Err AssertionError) /\
  (forall result,
     apply_affine_transform self tensor affine sp rp i = Ok result ->
     List.length (Torch.channels tensor) = 1%nat /\
     List.length (Torch.channels result) = 1%nat).
Proof.
  unfold apply_affine_transform, resampled_image. split.
  - intros H. apply Nat.eqb_neq in H. now rewrite H.
  - intros result.
    destruct (List.length (Torch.channels tensor) =? 1)%nat eqn:E; simpl;
      [|discriminate].
    apply Nat.eqb_eq in E.
    destruct (affine_composite sp rp); simpl; [|discriminate].
    destruct (default_value _ _ _); simpl; [|discriminate].
    intros H. injection H as <-. split; [exact E|].
    simpl. destruct (Torch.channels tensor) as [|c [|]]; try discriminate E.
    reflexivity.
Qed.

Lemma dict_set_floats_images (key k : string) (l : list Q) (img : ImageDict)
  (d : Subject) :
  In (k, EImage img) (dict_set key (EFloats l) d) -> In (k, EImage img) d.
Proof.
  induction d as [|[k' old] d IH]; simpl.
  - intros [H|[]]. discriminate H.
  - destruct (String.eqb k' key); simpl.
    + intros [H|H]; [discriminate H|now right].
    + intros [H|H]; [now left|right; now apply IH].
Qed.

Lemma transform_images_completes (self : RandomAffine) (sp rp : list Q)
  (items : Subject) :
  (forall key img,
     In (key, EImage img) items ->
     exists tensor,
       apply_affine_transform self (DATA img) (AFFINE img) sp rp
         (if ImageType_eqb (TYPE img) LABEL then NEAREST
          else interpolation self) = Ok tensor) ->
  exists out, transform_images self sp rp items = (Ok tt, out).
Proof.
  induction items as [|[k e] rest IH]; intros H.
  - now eexists.
  - destruct IH as [rest' Hrest].
    { intros key img Hin. apply (H key img). now right. }
    simpl. destruct e as [img|values|text]; simpl.
    + destruct (H k img (or_introl eq_refl)) as [tensor ->].
      rewrite Hrest. now eexists.
    + rewrite Hrest. now eexists.
    + rewrite Hrest. now eexists.
Qed.


Lemma get_params_err_inv (scales degrees : Q * Q) (isotropic : bool)
  (g g' : Torch.Generator) (e : Exception) :
  get_params scales degrees isotropic g = (Err e, g') ->
  g' = g \/ g' = snd (Torch.draws 3 g).
Proof.
  unfold get_params.
  destruct (Qlt_le_dec (snd scales) (fst scales)) as [H1|H1].
  - rewrite (uniform_refuses 3 _ _ g H1).
    intros H. injection H as _ <-. now left.
  - rewrite (uniform_accepts 3 _ _ g H1).
    destruct (Qlt_le_dec (snd degrees) (fst degrees)) as [H2|H2].
    + rewrite (uniform_refuses 3 _ _ _ H2).
      intros H. injection H as _ <-. now right.
    + rewrite (uniform_accepts 3 _ _ _ H2). intros H. discriminate H.
Qed.

(** X22: one call of [apply_transform] draws from the generator at most six
    times, whatever the number of volumes: it leaves the generator
    untouched, or three draws later, or six draws later; six draws later
    when it completes. *)
Theorem apply_transform_samples_once (self : RandomAffine)
  (sample out : Subject) (g g' : Torch.Generator) (r : Result unit) :
  apply_transform self sample g = (r, out, g') ->
  (g' = g \/ g' = snd (Torch.draws 3 g) \/ g' = snd (Torch.draws 6 g)) /\
  (r = Ok tt -> g' = snd (Torch.draws 6 g)).
Proof.
  unfold apply_transform.
  destruct (check_consistent_shape sample).
  - destruct (get_params _ _ _ g) as [[[sp rp]|ex] g1] eqn:Hp.
    + destruct (transform_images self sp rp _) as [r' out'].
      intros H. injection H as _ _ <-.
      destruct (get_params_ok_inv _ _ _ _ _ _ _ Hp) as (_ & _ & _ & _ & ->).
      split; [now right; right|reflexivity].
    + intros H. injection H as <- _ <-.
      split; [|discriminate].
      destruct (get_params_err_inv _ _ _ _ _ _ Hp) as [->| ->]; auto.
  - intros H. injection H as <- _ <-. split; [now left|discriminate].
Qed.

End MoreApplyFacts.

(** On the paired subject the parameters drawn are found in the subject
    afterwards. *)
Lemma sampled_parameters_are_recorded_witness :
  exists r out,
    @apply_transform counting_runtime copying_resampling
      (constant_otsu (1 # 2)) default_transform paired_subject 0%nat
    = (r, out, 6%nat) /\
    dict_get "random_scaling" out
    = Some (EFloats [(1 # 2) * ((11 # 10) - (9 # 10)) + (9 # 10);
                     (1 # 2) * ((11 # 10) - (9 # 10)) + (9 # 10);
                     (1 # 2) * ((11 # 10) - (9 # 10)) + (9 # 10)]%Q) /\
    dict_get "random_rotation" out
    = Some (EFloats [(1 # 2) * (10 - - (10)) + - (10);
                     (1 # 2) * (10 - - (10)) + - (10);
                     (1 # 2) * (10 - - (10)) + - (10)]%Q).
Proof.
  apply (@sampled_parameters_are_recorded counting_runtime copying_resampling
           (constant_otsu (1 # 2)) default_transform paired_subject
           0%nat 6%nat).
  - reflexivity.
  - reflexivity.
Defined.

(** After a run on the paired subject the label volume is still found under
    its name, with its affine map and its type. *)
Lemma entries_keep_name_affine_and_type_witness :
  exists tensor,
    dict_get "seg"
      (snd (fst (@apply_transform counting_runtime copying_resampling
                   (constant_otsu (1 # 2)) default_transform
                   paired_subject 0%nat)))
    = Some (EImage {| DATA := tensor; AFFINE := identity_affine;
                      TYPE := LABEL |}).
Proof.
  apply (@entries_keep_name_affine_and_type
           counting_runtime copying_resampling (constant_otsu (1 # 2))
           default_transform paired_subject
           (snd (fst (@apply_transform counting_runtime copying_resampling
                        (constant_otsu (1 # 2)) default_transform
                        paired_subject 0%nat)))
           0%nat
           (snd (@apply_transform counting_runtime copying_resampling
                   (constant_otsu (1 # 2)) default_transform
                   paired_subject 0%nat))
           (fst (fst (@apply_transform counting_runtime copying_resampling
                        (constant_otsu (1 # 2)) default_transform
                        paired_subject 0%nat)))
           "seg"%string
           (EImage (image_of LABEL Torch.float32 (uniform_volume 1)))).
  - reflexivity.
  - reflexivity.
  - discriminate.
  - discriminate.
Defined.

(** A volume with two channels after a good one: the loop ends with the
    assertion error, the good volume resampled (the copying resampler gives
    its values back), the bad one and the text after it untouched. *)
Lemma failing_volume_stops_the_loop_witness :
  @transform_images counting_runtime copying_resampling (constant_otsu (1 # 2))
    default_transform [1; 1; 1]%Q [0; 0; 0]%Q
    ([("t1"%string, EImage (image_of INTENSITY Torch.float32 bright_first_slice))]
     ++ ("bad"%string, EImage two_channel_image)
     :: [("note"%string, EText "kept")])
  = (Err AssertionError,
     [("t1"%string, EImage (image_of INTENSITY Torch.float32 bright_first_slice))]
     ++ ("bad"%string, EImage two_channel_image)
     :: [("note"%string, EText "kept")]).
Proof.
  apply (@failing_volume_stops_the_loop counting_runtime copying_resampling
           (constant_otsu (1 # 2)) default_transform [1; 1; 1]%Q [0; 0; 0]%Q
           [("t1"%string,
             EImage (image_of INTENSITY Torch.float32 bright_first_slice))]
           [("t1"%string,
             EImage (image_of INTENSITY Torch.float32 bright_first_slice))]
           [("note"%string, EText "kept")]
           "bad"%string two_channel_image AssertionError).
  - reflexivity.
  - reflexivity.
Defined.

Lemma one_channel_in_one_channel_out_witness :
  @apply_affine_transform counting_runtime copying_resampling
    (constant_otsu (1 # 2)) default_transform (DATA two_channel_image)
    identity_affine [1; 1; 1]%Q [0; 0; 0]%Q LINEAR = Err AssertionError /\
  List.length
    (Torch.channels (tensor_of Torch.float32 bright_first_slice)) = 1%nat.
Proof.
  split.
  - apply (proj1 (@one_channel_in_one_channel_out counting_runtime
                    copying_resampling (constant_otsu (1 # 2))
                    default_transform (DATA two_channel_image)
                    identity_affine [1; 1; 1]%Q [0; 0; 0]%Q LINEAR)).
    simpl. discriminate.
  - apply (proj2 (@one_channel_in_one_channel_out counting_runtime
                    copying_resampling (constant_otsu (1 # 2))
                    default_transform
                    (tensor_of Torch.float32 bright_first_slice)
                    identity_affine [1; 1; 1]%Q [0; 0; 0]%Q LINEAR)
             (tensor_of Torch.float32 bright_first_slice)).
    reflexivity.
Defined.


Lemma apply_transform_samples_once_witness :
  snd (@apply_transform counting_runtime copying_resampling
         (constant_otsu (1 # 2)) default_transform paired_subject 0%nat)
  = 6%nat.
Proof.
  apply (proj2 (@apply_transform_samples_once
                  counting_runtime copying_resampling (constant_otsu (1 # 2))
                  default_transform paired_subject
                  (snd (fst (@apply_transform counting_runtime
                               copying_resampling (constant_otsu (1 # 2))
                               default_transform paired_subject 0%nat)))
                  0%nat
                  (snd (@apply_transform counting_runtime copying_resampling
                          (constant_otsu (1 # 2)) default_transform
                          paired_subject 0%nat))
                  (fst (fst (@apply_transform counting_runtime
                               copying_resampling (constant_otsu (1 # 2))
                               default_transform paired_subject 0%nat)))
                  eq_refl)).
  reflexivity.
Defined.
